(** * A shallow embedding of the C-to-Python transpiler

    The development follows [transpiler.py]: the preprocessing pass of
    [convert_c_to_python], the emission state of [CtoPythonTranspiler] and
    its [visit_*] methods, each a definition of its own over a
    state-and-exception monad, tied together by the dispatcher [visit], a
    structurally recursive function over the pycparser syntax tree.

    Conventions.
    - A Python [str] is a [string]; each [ascii] stands for the code point
      of the same number, so the model covers code points below 256.
    - A Python [int] is a [Z].
    - The values a [visit_*] method returns are [None] or a [str]; no method
      returns a [list], so the [isinstance(code, list)] branches of
      [visit_Compound] and [visit_Case] are unreachable and [pyval] has no
      list constructor.
    - Reading a field a node does not have raises [AttributeError]; joining
      a value that is not a [str] raises [TypeError].  The recursion limit
      of the interpreter is not modelled.
    - The parser of pycparser is an external collaborator: it is a section
      variable of [convert_c_to_python], returning a tree or the text of the
      [ParseError] it raises.

    The file has two parts: the definitions (the program, then the
    vocabulary of the statements), and the lemmas and theorems. *)

From Stdlib Require Import String Ascii List ZArith Lia Bool Wf_nat.
Import ListNotations.
Open Scope string_scope.

(** * Part I: definitions *)

(** ** Python values and exceptions *)

Inductive pyval : Type :=
| PNone
| PStr (s : string).

(** [f"{v}"] *)
Definition fmt (v : pyval) : string :=
  match v with
  | PNone => "None"
  | PStr s => s
  end.

(** Truth value of [v] in [if v:] *)
Definition truthy (v : pyval) : bool :=
  match v with
  | PNone => false
  | PStr EmptyString => false
  | PStr (String _ _) => true
  end.

(** [v == s] for a [str] literal [s] *)
Definition py_eqb (v : pyval) (s : string) : bool :=
  match v with
  | PNone => false
  | PStr s' => String.eqb s' s
  end.

(** A field that holds a [str] or [None] *)
Definition of_option (o : option string) : pyval :=
  match o with
  | Some s => PStr s
  | None => PNone
  end.

(** The exceptions the generator can raise *)
Inductive exn : Type :=
| AttributeError
| TypeError.

(** ** The syntax tree of pycparser

    One constructor per [c_ast] class the generator reads; the fields the
    generator never reads ([coord], [quals], [storage], ...) are left out.
    A field that pycparser may set to [None] is an [option].  The classes
    without a constructor of their own are gathered in [Other], which keeps
    the class and the children.  The generator reads fields of a node it
    has not dispatched on in five places.  Two of them can hold any
    expression, the initializer and the condition of a [For]: there it
    reads [lvalue], [rvalue] and [right], which only [Assignment] and
    [BinaryOp] have.  The others are [decl] of a [FuncDef], [args] of a
    [FuncDecl] and [args] of a [FuncCall], where pycparser puts a [Decl]
    of a [FuncDecl], a [ParamList] of [Decl], [Typename], [ID] or
    [EllipsisParam], and an [ExprList]; a node of another class there is
    given the [AttributeError] of a missing field. *)

#[local] Set Warnings "-register-all".

Inductive other_class : Type :=
| Alignas | Break | Cast | CompoundLiteral | Continue | DeclList | DoWhile
| EmptyStatement | Enum | Enumerator | EnumeratorList | Goto | InitList
| Label | NamedInitializer | Pragma | StaticAssert | Struct | StructRef
| TernaryOp | Typedef | Union.

Inductive node : Type :=
| FileAST (ext : list node)
| FuncDef (decl : node) (body : node)
| Decl (name : option string) (type : node) (init : option node)
| TypeDecl (declname : option string) (type : node)
| ArrayDecl (type : node) (dim : option node)
| PtrDecl (type : node)
| FuncDecl (args : option node) (type : node)
| ParamList (params : list node)
| Typename (name : option string) (type : node)
| EllipsisParam
| IdentifierType (names : list string)
| Compound (block_items : option (list node))
| Assignment (op : string) (lvalue rvalue : node)
| Return (expr : option node)
| If (cond iftrue : node) (iffalse : option node)
| While (cond stmt : node)
| For (init cond next : option node) (stmt : node)
| ArrayRef (name subscript : node)
| Switch (cond stmt : node)
| Case (expr : node) (stmts : list node)
| Default (stmts : list node)
| FuncCall (name : node) (args : option node)
| ExprList (exprs : list node)
| ID (name : string)
| Constant (type value : string)
| BinaryOp (op : string) (left right : node)
| UnaryOp (op : string) (expr : node)
| Other (cls : other_class) (children : list node).

Definition other_class_name (c : other_class) : string :=
  match c with
  | Alignas => "Alignas" | Break => "Break" | Cast => "Cast"
  | CompoundLiteral => "CompoundLiteral" | Continue => "Continue"
  | DeclList => "DeclList" | DoWhile => "DoWhile"
  | EmptyStatement => "EmptyStatement" | Enum => "Enum"
  | Enumerator => "Enumerator" | EnumeratorList => "EnumeratorList"
  | Goto => "Goto" | InitList => "InitList" | Label => "Label"
  | NamedInitializer => "NamedInitializer" | Pragma => "Pragma"
  | StaticAssert => "StaticAssert" | Struct => "Struct"
  | StructRef => "StructRef" | TernaryOp => "TernaryOp"
  | Typedef => "Typedef" | Union => "Union"
  end.

(** [type(node).__name__] *)
Definition class_name (n : node) : string :=
  match n with
  | FileAST _ => "FileAST" | FuncDef _ _ => "FuncDef" | Decl _ _ _ => "Decl"
  | TypeDecl _ _ => "TypeDecl" | ArrayDecl _ _ => "ArrayDecl"
  | PtrDecl _ => "PtrDecl" | FuncDecl _ _ => "FuncDecl"
  | ParamList _ => "ParamList" | Typename _ _ => "Typename"
  | EllipsisParam => "EllipsisParam" | IdentifierType _ => "IdentifierType"
  | Compound _ => "Compound" | Assignment _ _ _ => "Assignment"
  | Return _ => "Return" | If _ _ _ => "If" | While _ _ => "While"
  | For _ _ _ _ => "For" | ArrayRef _ _ => "ArrayRef"
  | Switch _ _ => "Switch" | Case _ _ => "Case" | Default _ => "Default"
  | FuncCall _ _ => "FuncCall" | ExprList _ => "ExprList" | ID _ => "ID"
  | Constant _ _ => "Constant" | BinaryOp _ _ _ => "BinaryOp"
  | UnaryOp _ _ => "UnaryOp" | Other c _ => other_class_name c
  end.

(** The classes for which [CtoPythonTranspiler] defines a [visit_<Class>]
    method; [NodeVisitor.visit] sends every other class to [generic_visit]. *)
Definition has_rule (n : node) : bool :=
  match n with
  | FileAST _ | FuncDef _ _ | Compound _ | Decl _ _ _ | Assignment _ _ _
  | Return _ | If _ _ _ | While _ _ | For _ _ _ _ | ArrayRef _ _
  | Switch _ _ | Case _ _ | Default _ | FuncCall _ _ | ID _ | Constant _ _
  | BinaryOp _ _ _ | UnaryOp _ _ => true
  | _ => false
  end.

(** ** Emission state and the monad of the visitor *)

Record CtoPythonTranspiler : Type := mkTranspiler {
  lines : list string;
  indent_level : Z;
  switch_var : pyval;
  case_seen : bool
}.

(** [__init__] *)
Definition init_transpiler : CtoPythonTranspiler :=
  {| lines := []; indent_level := 0; switch_var := PNone; case_seen := false |}.

Inductive result (A : Type) : Type :=
| Ok (a : A) (self : CtoPythonTranspiler)
| Raise (e : exn).
Arguments Ok {A} a self.
Arguments Raise {A} e.

Definition M (A : Type) : Type := CtoPythonTranspiler -> result A.

Definition ret {A} (a : A) : M A := fun self => Ok a self.
Definition raise {A} (e : exn) : M A := fun _ => Raise e.
Definition bind {A B} (m : M A) (k : A -> M B) : M B :=
  fun self =>
    match m self with
    | Ok a self' => k a self'
    | Raise e => Raise e
    end.

Declare Scope py_scope.
Delimit Scope py_scope with py.
Notation "x <- m ;; k" := (bind m (fun x => k))
  (at level 61, m at next level, right associativity) : py_scope.
Notation "m ;; k" := (bind m (fun _ => k))
  (at level 61, right associativity) : py_scope.
Open Scope py_scope.

Fixpoint str_repeat (s : string) (n : nat) : string :=
  match n with
  | O => ""
  | S n' => s ++ str_repeat s n'
  end.

(** [indent]: ['    ' * self.indent_level]; a negative count gives [''] *)
Definition indent (self : CtoPythonTranspiler) : string :=
  str_repeat "    " (Z.to_nat (indent_level self)).

(** [self.lines.append(f"{self.indent()}{text}")] *)
Definition append_line (text : string) : M unit :=
  fun self =>
    Ok tt {| lines := lines self ++ [indent self ++ text];
             indent_level := indent_level self;
             switch_var := switch_var self;
             case_seen := case_seen self |}.

(** [self.indent_level += d] *)
Definition add_indent (d : Z) : M unit :=
  fun self =>
    Ok tt {| lines := lines self;
             indent_level := indent_level self + d;
             switch_var := switch_var self;
             case_seen := case_seen self |}.

Definition set_switch_var (v : pyval) : M unit :=
  fun self =>
    Ok tt {| lines := lines self;
             indent_level := indent_level self;
             switch_var := v;
             case_seen := case_seen self |}.

Definition set_case_seen (b : bool) : M unit :=
  fun self =>
    Ok tt {| lines := lines self;
             indent_level := indent_level self;
             switch_var := switch_var self;
             case_seen := b |}.

Definition get_switch_var : M pyval := fun self => Ok (switch_var self) self.
Definition get_case_seen : M bool := fun self => Ok (case_seen self) self.

(** [generic_visit], for a node of class [cls] *)
Definition generic_visit (cls : string) : M pyval :=
  ret (PStr ("# [Unhandled: " ++ cls ++ "]")).

(** [if code: self.lines.append(f"{self.indent()}{code}")] *)
Definition append_code (code : pyval) : M unit :=
  if truthy code then append_line (fmt code) else ret tt.

(** [sep.join(items)]: a [TypeError] when an item is not a [str] *)
Fixpoint all_str (items : list pyval) : option (list string) :=
  match items with
  | [] => Some []
  | PStr s :: rest =>
      match all_str rest with
      | Some ss => Some (s :: ss)
      | None => None
      end
  | PNone :: _ => None
  end.

Definition join (sep : string) (items : list pyval) : M string :=
  match all_str items with
  | Some ss => ret (String.concat sep ss)
  | None => raise TypeError
  end.

(** [param.name].  [Decl], [Typename] and [ID] carry a [name] that is a
    [str] or [None]; the [name] of a [FuncCall] or an [ArrayRef] is a node,
    which [join] refuses like [None]; the other classes of the model have no
    such field. *)
Definition param_name (param : node) : M pyval :=
  match param with
  | Decl name _ _ => ret (of_option name)
  | Typename name _ => ret (of_option name)
  | ID name => ret (PStr name)
  | FuncCall _ _ | ArrayRef _ _ => ret PNone
  | _ => raise AttributeError
  end.

Fixpoint param_names (params : list node) : M (list pyval) :=
  match params with
  | [] => ret []
  | param :: rest =>
      n <- param_name param ;;
      ns <- param_names rest ;;
      ret (n :: ns)
  end.

(** [_get_func_args] *)
Definition _get_func_args (args : option node) : M string :=
  match args with
  | None => ret ""
  | Some (ParamList params) =>
      names <- param_names params ;;
      join ", " names
  | Some _ => raise AttributeError
  end.

(** [node.decl.type.args]: only [FuncDecl] and [FuncCall] have [args] *)
Definition type_args (type : node) : M (option node) :=
  match type with
  | FuncDecl args _ => ret args
  | FuncCall _ args => ret args
  | _ => raise AttributeError
  end.

(** ** The visitor *)

Section Loops.
Variable visit : node -> M pyval.

(** [for ext in node.ext: self.visit(ext)] *)
Fixpoint visit_each_ (l : list node) : M unit :=
  match l with
  | [] => ret tt
  | n :: rest => visit n ;; visit_each_ rest
  end.

(** The loop of [visit_Compound], [visit_Case] and [visit_Default]:
    [for stmt in stmts: code = self.visit(stmt); if code: ...append...] *)
Fixpoint visit_stmts (stmts : list node) : M unit :=
  match stmts with
  | [] => ret tt
  | stmt :: rest =>
      code <- visit stmt ;;
      append_code code ;;
      visit_stmts rest
  end.

(** [[self.visit(arg) for arg in exprs]] *)
Fixpoint visit_list (exprs : list node) : M (list pyval) :=
  match exprs with
  | [] => ret []
  | arg :: rest =>
      v <- visit arg ;;
      vs <- visit_list rest ;;
      ret (v :: vs)
  end.
End Loops.

(** The [visit_*] methods, each over the fields of its node; [visit] is
    the dispatcher [NodeVisitor.visit], through which they call each other. *)
Section Methods.
Variable visit : node -> M pyval.

Definition visit_FileAST (ext : list node) : M pyval :=
  visit_each_ visit ext ;;
  ret PNone.

Definition visit_FuncDef (decl body : node) : M pyval :=
  match decl with
  | Decl func_name type _ =>
      a <- type_args type ;;
      args <- _get_func_args a ;;
      append_line ("def " ++ fmt (of_option func_name)
                   ++ "(" ++ args ++ "):") ;;
      add_indent 1 ;;
      visit body ;;
      add_indent (-1) ;;
      ret PNone
  | _ => raise AttributeError
  end.

(** [node.block_items or []] is the empty list for [None]. *)
Definition visit_Compound (block_items : option (list node)) : M pyval :=
  match block_items with
  | Some items => visit_stmts visit items
  | None => visit_stmts visit []
  end ;;
  ret PNone.

Definition visit_Decl (name : option string) (type : node)
    (init : option node) : M pyval :=
  match type with
  | TypeDecl _ _ =>
      value <- match init with
               | Some i => visit i
               | None => ret (PStr "None")
               end ;;
      ret (PStr (fmt (of_option name) ++ " = " ++ fmt value))
  | ArrayDecl _ dim =>
      size <- match dim with
              | Some d => visit d
              | None => generic_visit "NoneType"
              end ;;
      ret (PStr (fmt (of_option name) ++ " = [None] * " ++ fmt size))
  | _ => ret (PStr "")
  end.

Definition visit_Assignment (lvalue rvalue : node) : M pyval :=
  left_ <- visit lvalue ;;
  right_ <- visit rvalue ;;
  ret (PStr (fmt left_ ++ " = " ++ fmt right_)).

Definition visit_Return (expr : option node) : M pyval :=
  value <- match expr with
           | Some e => visit e
           | None => generic_visit "NoneType"
           end ;;
  ret (PStr ("return " ++ fmt value)).

Definition visit_If (cond iftrue : node) (iffalse : option node) : M pyval :=
  c <- visit cond ;;
  append_line ("if " ++ fmt c ++ ":") ;;
  add_indent 1 ;;
  visit iftrue ;;
  add_indent (-1) ;;
  match iffalse with
  | Some f =>
      append_line "else:" ;;
      add_indent 1 ;;
      visit f ;;
      add_indent (-1) ;;
      ret PNone
  | None => ret PNone
  end.

Definition visit_While (cond stmt : node) : M pyval :=
  c <- visit cond ;;
  append_line ("while " ++ fmt c ++ ":") ;;
  add_indent 1 ;;
  visit stmt ;;
  add_indent (-1) ;;
  ret PNone.

(** [node.init.lvalue] and [node.init.rvalue] exist when [node.init] is an
    [Assignment], [node.cond.right] when [node.cond] is a [BinaryOp];
    [node.next] is not read. *)
Definition visit_For (init cond : option node) (stmt : node) : M pyval :=
  match init with
  | Some (Assignment _ lvalue rvalue) =>
      var_name <- visit lvalue ;;
      start_val <- visit rvalue ;;
      match cond with
      | Some (BinaryOp _ _ right_) =>
          end_val <- visit right_ ;;
          append_line ("for " ++ fmt var_name ++ " in range("
                       ++ fmt start_val ++ ", " ++ fmt end_val ++ "):") ;;
          add_indent 1 ;;
          visit stmt ;;
          add_indent (-1) ;;
          ret PNone
      | _ => raise AttributeError
      end
  | _ => raise AttributeError
  end.

Definition visit_ArrayRef (name subscript : node) : M pyval :=
  nm <- visit name ;;
  sub <- visit subscript ;;
  ret (PStr (fmt nm ++ "[" ++ fmt sub ++ "]")).

Definition visit_Switch (cond stmt : node) : M pyval :=
  var <- visit cond ;;
  append_line ("# switch(" ++ fmt var ++ ") equivalent") ;;
  set_switch_var var ;;
  set_case_seen false ;;
  visit stmt ;;
  set_switch_var PNone ;;
  ret PNone.

Definition visit_Case (expr : node) (stmts : list node) : M pyval :=
  val <- visit expr ;;
  seen <- get_case_seen ;;
  sv <- get_switch_var ;;
  append_line ((if negb seen then "if" else "elif") ++ " " ++ fmt sv
               ++ " == " ++ fmt val ++ ":") ;;
  set_case_seen true ;;
  add_indent 1 ;;
  visit_stmts visit stmts ;;
  add_indent (-1) ;;
  ret PNone.

Definition visit_Default (stmts : list node) : M pyval :=
  append_line "else:" ;;
  add_indent 1 ;;
  visit_stmts visit stmts ;;
  add_indent (-1) ;;
  ret PNone.

(** [node.args.exprs] exists when [node.args] is an [ExprList]. *)
Definition visit_FuncCall (name : node) (args : option node) : M pyval :=
  func_name <- visit name ;;
  a <- match args with
       | Some (ExprList exprs) =>
           vs <- visit_list visit exprs ;;
           join ", " vs
       | Some _ => raise AttributeError
       | None => ret ""
       end ;;
  if py_eqb func_name "printf" then ret (PStr ("print(" ++ a ++ ")"))
  else ret (PStr (fmt func_name ++ "(" ++ a ++ ")")).

Definition visit_ID (name : string) : M pyval := ret (PStr name).

Definition visit_Constant (value : string) : M pyval := ret (PStr value).

Definition visit_BinaryOp (op : string) (l r : node) : M pyval :=
  left_ <- visit l ;;
  right_ <- visit r ;;
  ret (PStr (fmt left_ ++ " " ++ op ++ " " ++ fmt right_)).

Definition visit_UnaryOp (op : string) (expr : node) : M pyval :=
  e <- visit expr ;;
  ret (PStr (op ++ fmt e)).
End Methods.

(** [NodeVisitor.visit]: the method [visit_<Class>] of the class of the
    node, [generic_visit] when there is none.  [visit None] goes to
    [generic_visit] with the class [NoneType]. *)
Fixpoint visit (n : node) : M pyval :=
  match n with
  | FileAST ext => visit_FileAST visit ext
  | FuncDef decl body => visit_FuncDef visit decl body
  | Compound block_items => visit_Compound visit block_items
  | Decl name type init => visit_Decl visit name type init
  | Assignment _ lvalue rvalue => visit_Assignment visit lvalue rvalue
  | Return expr => visit_Return visit expr
  | If cond iftrue iffalse => visit_If visit cond iftrue iffalse
  | While cond stmt => visit_While visit cond stmt
  | For init cond _ stmt => visit_For visit init cond stmt
  | ArrayRef name subscript => visit_ArrayRef visit name subscript
  | Switch cond stmt => visit_Switch visit cond stmt
  | Case expr stmts => visit_Case visit expr stmts
  | Default stmts => visit_Default visit stmts
  | FuncCall name args => visit_FuncCall visit name args
  | ID name => visit_ID name
  | Constant _ value => visit_Constant value
  | BinaryOp op l r => visit_BinaryOp visit op l r
  | UnaryOp op expr => visit_UnaryOp visit op expr
  | _ => generic_visit (class_name n)
  end.

(** ** The entry point [convert_c_to_python] *)

(** LF, as a one-character text: ['\n'] *)
Definition nl : string := String "010"%char EmptyString.

(** The line boundaries of [str.splitlines] below code point 256:
    LF, VT, FF, CR, FS, GS, RS and NEL. *)
Definition is_linebreak (c : ascii) : bool :=
  existsb (Ascii.eqb c)
    ["010"; "011"; "012"; "013"; "028"; "029"; "030"; "133"]%char.

(** The characters [str.strip] removes below code point 256:
    TAB, the line boundaries, US, space and NBSP. *)
Definition isspace (c : ascii) : bool :=
  existsb (Ascii.eqb c)
    ["009"; "010"; "011"; "012"; "013"; "028"; "029"; "030"; "031";
     " "; "133"; "160"]%char.

(** [str.splitlines]: [cur] is the text of the line being read.  A CR
    directly followed by LF is one boundary; no empty last line is
    produced when the text ends with a boundary. *)
Fixpoint splitlines_from (cur : string) (s : string) : list string :=
  match s with
  | EmptyString =>
      match cur with
      | EmptyString => []
      | _ => [cur]
      end
  | String c rest =>
      if is_linebreak c then
        if Ascii.eqb c "013" then
          match rest with
          | String "010" rest' => cur :: splitlines_from "" rest'
          | _ => cur :: splitlines_from "" rest
          end
        else cur :: splitlines_from "" rest
      else splitlines_from (cur ++ String c "") rest
  end.

(** [s.splitlines()] *)
Definition splitlines (s : string) : list string := splitlines_from "" s.

(** [s.lstrip()] and [s.rstrip()] *)
Fixpoint lstrip (s : string) : string :=
  match s with
  | EmptyString => ""
  | String c rest => if isspace c then lstrip rest else s
  end.

Fixpoint rstrip (s : string) : string :=
  match s with
  | EmptyString => ""
  | String c rest =>
      match rstrip rest with
      | EmptyString => if isspace c then "" else String c ""
      | kept => String c kept
      end
  end.

(** [line.strip()] *)
Definition strip (s : string) : string := rstrip (lstrip s).

(** [line.strip().startswith('#')] *)
Definition is_directive (line : string) : bool := prefix "#" (strip line).

(** The first statement of [convert_c_to_python]:
    ['\n'.join(line for line in c_code.splitlines()
                 if not line.strip().startswith('#'))] *)
Definition remove_preprocessor_lines (c_code : string) : string :=
  String.concat nl
    (filter (fun line => negb (is_directive line)) (splitlines c_code)).

(** What [parser.parse] does: it returns a tree or raises a [ParseError],
    kept as the text [str(e)]. *)
Inductive parsed : Type :=
| Tree (ast : node)
| ParseError (e : string).

(** What a call of [convert_c_to_python] does: it returns a [str] or lets
    an exception through. *)
Inductive outcome : Type :=
| Returns (text : string)
| Raises (e : exn).

(** [transpiler = CtoPythonTranspiler(); transpiler.visit(ast);
     return "\n".join(transpiler.lines)] *)
Definition generate (ast : node) : outcome :=
  match visit ast init_transpiler with
  | Ok _ transpiler => Returns (String.concat nl (lines transpiler))
  | Raise e => Raises e
  end.

Section Convert.
Variable parse : string -> parsed.

Definition convert_c_to_python (c_code : string) : outcome :=
  let c_code := remove_preprocessor_lines c_code in
  match parse c_code with
  | Tree ast => generate ast
  | ParseError e =>
      Returns ("# Error: Could not parse C code." ++ nl
               ++ "# Details: " ++ e)
  end.
End Convert.

(** ** Nodes that only render text

    [simple n] holds of the trees whose visit reads no emission state and
    appends no line: expressions, declarations and [return] over such
    expressions, and every node sent to [generic_visit].  [render n] is the
    text their visit returns.  Every expression of the grammar of
    pycparser is [simple]. *)

Fixpoint simple (n : node) : bool :=
  match n with
  | FileAST _ | FuncDef _ _ | Compound _ | If _ _ _ | While _ _
  | For _ _ _ _ | Switch _ _ | Case _ _ | Default _ => false
  | Decl _ type init =>
      match type with
      | TypeDecl _ _ => match init with Some i => simple i | None => true end
      | ArrayDecl _ dim => match dim with Some d => simple d | None => true end
      | _ => true
      end
  | Assignment _ lvalue rvalue => simple lvalue && simple rvalue
  | Return expr => match expr with Some e => simple e | None => true end
  | ArrayRef name subscript => simple name && simple subscript
  | FuncCall name args =>
      simple name &&
      match args with
      | Some (ExprList exprs) => forallb simple exprs
      | Some _ => false
      | None => true
      end
  | BinaryOp _ l r => simple l && simple r
  | UnaryOp _ expr => simple expr
  | _ => true
  end.

(** The text [generic_visit] returns for the class [cls] *)
Definition unhandled (cls : string) : string :=
  "# [Unhandled: " ++ cls ++ "]".

Fixpoint render (n : node) : string :=
  match n with
  | Decl name type init =>
      match type with
      | TypeDecl _ _ =>
          fmt (of_option name) ++ " = "
          ++ match init with Some i => render i | None => "None" end
      | ArrayDecl _ dim =>
          fmt (of_option name) ++ " = [None] * "
          ++ match dim with
             | Some d => render d
             | None => unhandled "NoneType"
             end
      | _ => ""
      end
  | Assignment _ lvalue rvalue => render lvalue ++ " = " ++ render rvalue
  | Return expr =>
      "return "
      ++ match expr with
         | Some e => render e
         | None => unhandled "NoneType"
         end
  | ArrayRef name subscript => render name ++ "[" ++ render subscript ++ "]"
  | FuncCall name args =>
      let a := match args with
               | Some (ExprList exprs) => String.concat ", " (map render exprs)
               | _ => ""
               end in
      if String.eqb (render name) "printf" then "print(" ++ a ++ ")"
      else render name ++ "(" ++ a ++ ")"
  | ID name => name
  | Constant _ value => value
  | BinaryOp op l r => render l ++ " " ++ op ++ " " ++ render r
  | UnaryOp op expr => op ++ render expr
  | _ => unhandled (class_name n)
  end.
(** ** The trees a visit reaches *)

(** The number of nodes of a tree *)
Definition size_opt (f : node -> nat) (o : option node) : nat :=
  match o with
  | Some n => f n
  | None => 0
  end.

Fixpoint size (n : node) : nat :=
  S match n with
    | FileAST ext => list_sum (map size ext)
    | FuncDef decl body => size decl + size body
    | Decl _ type init => size type + size_opt size init
    | TypeDecl _ type => size type
    | ArrayDecl type dim => size type + size_opt size dim
    | PtrDecl type => size type
    | FuncDecl args type => size_opt size args + size type
    | ParamList params => list_sum (map size params)
    | Typename _ type => size type
    | EllipsisParam => 0
    | IdentifierType _ => 0
    | Compound block_items =>
        match block_items with
        | Some items => list_sum (map size items)
        | None => 0
        end
    | Assignment _ lvalue rvalue => size lvalue + size rvalue
    | Return expr => size_opt size expr
    | If cond iftrue iffalse => size cond + size iftrue + size_opt size iffalse
    | While cond stmt => size cond + size stmt
    | For init cond next stmt =>
        size_opt size init + size_opt size cond + size_opt size next + size stmt
    | ArrayRef name subscript => size name + size subscript
    | Switch cond stmt => size cond + size stmt
    | Case expr stmts => size expr + list_sum (map size stmts)
    | Default stmts => list_sum (map size stmts)
    | FuncCall name args => size name + size_opt size args
    | ExprList exprs => list_sum (map size exprs)
    | ID _ => 0
    | Constant _ _ => 0
    | BinaryOp _ l r => size l + size r
    | UnaryOp _ expr => size expr
    | Other _ children => list_sum (map size children)
    end.

(** [child m n]: visiting [n] may call [visit] on [m]. *)
Inductive child : node -> node -> Prop :=
| child_FileAST m ext : In m ext -> child m (FileAST ext)
| child_FuncDef decl body : child body (FuncDef decl body)
| child_Compound m items : In m items -> child m (Compound (Some items))
| child_Decl_init name type i : child i (Decl name type (Some i))
| child_Decl_dim name type d init :
    child d (Decl name (ArrayDecl type (Some d)) init)
| child_Assignment_l op l r : child l (Assignment op l r)
| child_Assignment_r op l r : child r (Assignment op l r)
| child_Return e : child e (Return (Some e))
| child_If_cond c t f : child c (If c t f)
| child_If_true c t f : child t (If c t f)
| child_If_false c t f : child f (If c t (Some f))
| child_While_cond c st : child c (While c st)
| child_While_stmt c st : child st (While c st)
| child_For_lvalue op l r c nx st :
    child l (For (Some (Assignment op l r)) c nx st)
| child_For_rvalue op l r c nx st :
    child r (For (Some (Assignment op l r)) c nx st)
| child_For_right i op l r nx st :
    child r (For i (Some (BinaryOp op l r)) nx st)
| child_For_stmt i c nx st : child st (For i c nx st)
| child_ArrayRef_name a i : child a (ArrayRef a i)
| child_ArrayRef_subscript a i : child i (ArrayRef a i)
| child_Switch_cond c st : child c (Switch c st)
| child_Switch_stmt c st : child st (Switch c st)
| child_Case_expr e stmts : child e (Case e stmts)
| child_Case_stmts m e stmts : In m stmts -> child m (Case e stmts)
| child_Default m stmts : In m stmts -> child m (Default stmts)
| child_FuncCall_name f args : child f (FuncCall f args)
| child_FuncCall_args m f exprs :
    In m exprs -> child m (FuncCall f (Some (ExprList exprs)))
| child_BinaryOp_l op l r : child l (BinaryOp op l r)
| child_BinaryOp_r op l r : child r (BinaryOp op l r)
| child_UnaryOp op e : child e (UnaryOp op e).

(** ** Properties of computations *)

(** A computation that leaves the emission state as it found it *)
Definition pure_m {A} (m : M A) : Prop :=
  forall s a s', m s = Ok a s' -> s' = s.

(** The text of [indent] at depth [d] *)
Definition indent_at (d : Z) : string := str_repeat "    " (Z.to_nat d).

(** [line] starts with the indentation [p] *)
Definition has_indent (p line : string) : Prop :=
  exists text, line = p ++ text.

(** [moved s s']: [s'] is [s] at the same depth with lines added, each
    of them indented at least as deep as [s]. *)
Definition moved (s s' : CtoPythonTranspiler) : Prop :=
  indent_level s' = indent_level s /\
  exists added,
    lines s' = (lines s ++ added)%list /\
    Forall (has_indent (indent_at (indent_level s))) added.

(** A computation that, when it returns, has [moved] the state *)
Definition keeps_depth {A} (m : M A) : Prop :=
  forall s a s', m s = Ok a s' -> moved s s'.

(** ** The lines of blocks and of switch labels *)

(** [s] with [added] appended to its lines *)
Definition emit (added : list string) (s : CtoPythonTranspiler)
  : CtoPythonTranspiler :=
  {| lines := lines s ++ added;
     indent_level := indent_level s;
     switch_var := switch_var s;
     case_seen := case_seen s |}.

(** The line [visit_Compound] appends for a statement whose visit returns
    [text]: none when the text is empty. *)
Definition code_line (d : Z) (text : string) : list string :=
  match text with
  | EmptyString => []
  | _ => [indent_at d ++ text]
  end.

(** [plain n]: [n] is [simple], or a block, an if, a while or a counting
    for over [simple] expressions and [plain] statements: no switch, no
    label, no function definition. *)
Fixpoint plain (n : node) : bool :=
  match n with
  | Compound block_items =>
      match block_items with
      | Some items => forallb plain items
      | None => true
      end
  | If cond iftrue iffalse =>
      simple cond && plain iftrue
      && match iffalse with Some f => plain f | None => true end
  | While cond stmt => simple cond && plain stmt
  | For init cond _ stmt =>
      match init, cond with
      | Some (Assignment _ lvalue rvalue), Some (BinaryOp _ _ r) =>
          simple lvalue && simple rvalue && simple r && plain stmt
      | _, _ => false
      end
  | FileAST _ | FuncDef _ _ | Switch _ _ | Case _ _ | Default _ => false
  | _ => simple n
  end.

(** The value the visit of a [plain] node returns: its text when it is
    [simple], [None] otherwise *)
Definition value_of (n : node) : pyval :=
  if simple n then PStr (render n) else PNone.

(** The line a block appends for the value of one of its statements *)
Definition value_line (d : Z) (n : node) : list string :=
  if simple n then code_line d (render n) else [].

(** The lines the visit of a [plain] node appends at depth [d] *)
Fixpoint own_lines (d : Z) (n : node) : list string :=
  match n with
  | Compound (Some items) =>
      flat_map (fun stmt => (own_lines d stmt ++ value_line d stmt)%list) items
  | If cond iftrue iffalse =>
      (indent_at d ++ "if " ++ render cond ++ ":")
        :: own_lines (d + 1) iftrue
        ++ match iffalse with
           | Some f => (indent_at d ++ "else:") :: own_lines (d + 1) f
           | None => []
           end
  | While cond stmt =>
      (indent_at d ++ "while " ++ render cond ++ ":")
        :: own_lines (d + 1) stmt
  | For (Some (Assignment _ lvalue rvalue)) (Some (BinaryOp _ _ r)) _ stmt =>
      (indent_at d ++ "for " ++ render lvalue ++ " in range("
       ++ render rvalue ++ ", " ++ render r ++ "):")
        :: own_lines (d + 1) stmt
  | _ => []
  end.

(** The lines a block of [plain] statements appends at depth [d] *)
Definition block_lines (d : Z) (stmts : list node) : list string :=
  flat_map (fun stmt => (own_lines d stmt ++ value_line d stmt)%list) stmts.




(** ** Trees of the scenarios *)

(** The double quote, as a one-character text *)
Definition dq : string := String "034"%char EmptyString.

(** The type [int] of a declarator *)
Definition int_type (declname : option string) : node :=
  TypeDecl declname (IdentifierType ["int"]).

(** An integer literal *)
Definition int_const (value : string) : node := Constant "int" value.

(** A string literal: pycparser keeps its quotes in [value] *)
Definition str_const (text : string) : node :=
  Constant "string" (dq ++ text ++ dq).

(** The call [f(args)] *)
Definition call (f : string) (args : list node) : node :=
  FuncCall (ID f) (Some (ExprList args)).

(** [def_of name params body]: [int name(params) body], the parameters in
    K&R style, [None] for an empty parameter list *)
Definition def_of (name : string) (args : option node) (body : list node)
  : node :=
  FuncDef (Decl (Some name) (FuncDecl args (int_type (Some name))) None)
          (Compound (Some body)).

(** [int add(a, b) { return a + b; }] *)
Definition add_source : string := "int add(a, b) { return a + b; }".

(** The tree pycparser builds for [add_source] *)
Definition add_ast : node :=
  FileAST
    [def_of "add" (Some (ParamList [ID "a"; ID "b"]))
       [Return (Some (BinaryOp "+" (ID "a") (ID "b")))]].

(** [for (i = 0; i < 10; <step>) { printf(i); }] *)
Definition count_loop (step : option node) : node :=
  For (Some (Assignment "=" (ID "i") (int_const "0")))
      (Some (BinaryOp "<" (ID "i") (int_const "10")))
      step
      (Compound (Some [call "printf" [ID "i"]])).

(** The step clause [i = i + k] *)
Definition step_by (k : string) : option node :=
  Some (Assignment "=" (ID "i") (BinaryOp "+" (ID "i") (int_const k))).

(** [switch(x) { case 1: printf("one"); default: printf("other"); }] *)
Definition one_other_switch : node :=
  Switch (ID "x")
    (Compound
       (Some [Case (int_const "1") [call "printf" [str_const "one"]];
              Default [call "printf" [str_const "other"]]])).

(** [switch(x) { case 1: switch(y) { case 2: f(); } case 3: g(); }] *)
Definition nested_case_switch : node :=
  Switch (ID "x")
    (Compound
       (Some [Case (int_const "1")
                [Switch (ID "y")
                   (Compound (Some [Case (int_const "2") [call "f" []]]))];
              Case (int_const "3") [call "g" []]])).


(** [int *p;] *)
Definition pointer_decl : node :=
  Decl (Some "p") (PtrDecl (int_type (Some "p"))) None.

(** [void f() { for (;;) { } }] *)
Definition forever_source : string := "void f() { for (;;) { } }".

(** The tree pycparser builds for [forever_source] *)
Definition forever_ast : node :=
  FileAST
    [FuncDef
       (Decl (Some "f")
          (FuncDecl None (TypeDecl (Some "f") (IdentifierType ["void"])))
          None)
       (Compound (Some [For None None None (Compound None)]))].

(** A function nesting an if, a while, a for and a switch:
    [int f() { if (a) { while (b) { for (i = 0; i < n; i++)
       { switch (x) { case 1: y = 1; break; default: y = 2; } } } }
       else { return 0; } }] *)
Definition deep_nest : node :=
  def_of "f" None
    [If (ID "a")
        (Compound (Some
          [While (ID "b")
             (Compound (Some
               [For (Some (Assignment "=" (ID "i") (int_const "0")))
                    (Some (BinaryOp "<" (ID "i") (ID "n")))
                    (Some (UnaryOp "p++" (ID "i")))
                    (Compound (Some
                      [Switch (ID "x")
                         (Compound (Some
                           [Case (int_const "1")
                              [Assignment "=" (ID "y") (int_const "1");
                               Other Break []];
                            Default
                              [Assignment "=" (ID "y")
                                 (int_const "2")]]))]))]))]))
        (Some (Compound (Some [Return (Some (int_const "0"))])))].

(** The state a visit from a fresh transpiler ends in *)
Definition final_state (n : node) : CtoPythonTranspiler :=
  match visit n init_transpiler with
  | Ok _ s => s
  | Raise _ => init_transpiler
  end.

(** The name a parameter declares, when it declares one *)
Definition declared_name (param : node) : option string :=
  match param with
  | Decl name _ _ => name
  | Typename name _ => name
  | ID name => Some name
  | _ => None
  end.

(** ** Visits that do not depend on what was visited before *)

(** [guarded n]: no case label of [n] is visited outside the body of a
    switch statement of [n]. *)
Fixpoint guarded (n : node) : bool :=
  match n with
  | Case _ _ => false
  | Switch cond _ => guarded cond
  | FileAST ext => forallb guarded ext
  | FuncDef _ body => guarded body
  | Compound block_items =>
      match block_items with
      | Some items => forallb guarded items
      | None => true
      end
  | Decl _ type init =>
      match type with
      | TypeDecl _ _ => match init with Some i => guarded i | None => true end
      | ArrayDecl _ dim => match dim with Some d => guarded d | None => true end
      | _ => true
      end
  | Assignment _ lvalue rvalue => guarded lvalue && guarded rvalue
  | Return expr => match expr with Some e => guarded e | None => true end
  | If cond iftrue iffalse =>
      guarded cond && guarded iftrue
      && match iffalse with Some f => guarded f | None => true end
  | While cond stmt => guarded cond && guarded stmt
  | For init cond _ stmt =>
      match init with
      | Some (Assignment _ lvalue rvalue) =>
          guarded lvalue && guarded rvalue
          && match cond with
             | Some (BinaryOp _ _ r) => guarded r && guarded stmt
             | _ => true
             end
      | _ => true
      end
  | ArrayRef name subscript => guarded name && guarded subscript
  | Default stmts => forallb guarded stmts
  | FuncCall name args =>
      guarded name
      && match args with
         | Some (ExprList exprs) => forallb guarded exprs
         | _ => true
         end
  | BinaryOp _ l r => guarded l && guarded r
  | UnaryOp _ expr => guarded expr
  | _ => true
  end.

(** Two states with the same depth and discriminant and, when [strict],
    the same flag *)
Definition same_context (strict : bool) (s1 s2 : CtoPythonTranspiler) : Prop :=
  indent_level s1 = indent_level s2 /\
  switch_var s1 = switch_var s2 /\
  (strict = true -> case_seen s1 = case_seen s2).

(** Two runs, from [s1] and from [s2], that return the same value, append
    the same lines and end in the same context, or raise the same
    exception *)
Definition same_run {A} (strict : bool) (s1 s2 : CtoPythonTranspiler)
    (r1 r2 : result A) : Prop :=
  match r1, r2 with
  | Ok a1 t1, Ok a2 t2 =>
      a1 = a2 /\ same_context strict t1 t2 /\
      exists added,
        lines t1 = (lines s1 ++ added)%list /\
        lines t2 = (lines s2 ++ added)%list
  | Raise e1, Raise e2 => e1 = e2
  | _, _ => False
  end.

(** A computation whose runs from two states of the same context are the
    same *)
Definition indep {A} (strict : bool) (m : M A) : Prop :=
  forall s1 s2, same_context strict s1 s2 ->
                same_run strict s1 s2 (m s1) (m s2).

(** A computation that neither reads nor writes the state *)
Definition stateless {A} (m : M A) : Prop :=
  (exists a, forall s, m s = Ok a s) \/ (exists e, forall s, m s = Raise e).

(** The discriminant a visit leaves behind is the one it found or [None]. *)
Definition sv_kept {A} (m : M A) : Prop :=
  forall s a s', m s = Ok a s' ->
                 switch_var s' = switch_var s \/ switch_var s' = PNone.

(** The discriminant a computation leaves behind is [None]. *)
Definition sv_cleared {A} (m : M A) : Prop :=
  forall s a s', m s = Ok a s' -> switch_var s' = PNone.

(** The lines of [n] translated on its own *)
Definition block_of (n : node) : option (list string) :=
  match visit n init_transpiler with
  | Ok _ s => Some (lines s)
  | Raise _ => None
  end.

(** [int f() { switch (x) { case 1: a(); } }] *)
Definition switch_def : node :=
  def_of "f" None
    [Switch (ID "x")
       (Compound (Some [Case (int_const "1") [call "a" []]]))].

(** [int g() { case 2: b(); }]: a case label outside any switch, which
    the grammar of pycparser accepts *)
Definition bare_case_def : node :=
  def_of "g" None [Case (int_const "2") [call "b" []]].

(** [int h() { return 0; }] *)
Definition zero_def : node :=
  def_of "h" None [Return (Some (int_const "0"))].

(** The texts of [switch_def] and [zero_def], in either order, and a
    parser that knows them *)
Definition switch_zero_source : string :=
  "int f() { switch (x) { case 1: a(); } } int h() { return 0; }".

Definition zero_switch_source : string :=
  "int h() { return 0; } int f() { switch (x) { case 1: a(); } }".

Definition parse_switch_zero (c_code : string) : parsed :=
  if String.eqb c_code switch_zero_source
  then Tree (FileAST [switch_def; zero_def])
  else Tree (FileAST [zero_def; switch_def]).

(** ** Lines of the preprocessing pass *)

(** A text without line boundary *)
Fixpoint no_break (s : string) : bool :=
  match s with
  | EmptyString => true
  | String c rest => negb (is_linebreak c) && no_break rest
  end.

(** A text of whitespace only *)
Fixpoint all_space (s : string) : bool :=
  match s with
  | EmptyString => true
  | String c rest => isspace c && all_space rest
  end.

(** The lines [str.splitlines] gives back for the lines [ls] joined by
    LF: all of them, but for an empty last one. *)
Fixpoint drop_last_blank (ls : list string) : list string :=
  match ls with
  | [] => []
  | [l] => match l with EmptyString => [] | _ => [l] end
  | l :: rest => l :: drop_last_blank rest
  end.

(** The lines the pass keeps *)
Definition kept (line : string) : bool := negb (is_directive line).

(** CR, as a one-character text *)
Definition cr : string := String "013"%char EmptyString.

(** Two declarations, the first line ended by CR LF, the second by LF *)
Definition crlf_source : string := "int x;" ++ cr ++ nl ++ "int y;" ++ nl.

(** * Part I, continued: definitions for the rest of the code *)

(** ** Trees the generator translates without an exception *)

(** A parameter that declares a name *)
Definition is_named (param : node) : bool :=
  match declared_name param with
  | Some _ => true
  | None => false
  end.

(** A parameter list [_get_func_args] joins without an exception: none, or
    a [ParamList] of parameters that all declare a name *)
Definition named_params (args : option node) : bool :=
  match args with
  | None => true
  | Some (ParamList params) => forallb is_named params
  | Some _ => false
  end.

(** [supported n]: every expression of [n] is [simple], every for-loop of
    [n] has an assignment as initializer and a binary operation as
    condition, and every function definition of [n] has a [Decl] of a
    [FuncDecl] whose parameters all declare a name. *)
Fixpoint supported (n : node) : bool :=
  match n with
  | FileAST ext => forallb supported ext
  | FuncDef decl body =>
      match decl with
      | Decl _ (FuncDecl args _) _ => named_params args && supported body
      | _ => false
      end
  | Compound block_items =>
      match block_items with
      | Some items => forallb supported items
      | None => true
      end
  | If cond iftrue iffalse =>
      simple cond && supported iftrue
      && match iffalse with Some f => supported f | None => true end
  | While cond stmt => simple cond && supported stmt
  | For init cond _ stmt =>
      match init, cond with
      | Some (Assignment _ lvalue rvalue), Some (BinaryOp _ _ r) =>
          simple lvalue && simple rvalue && simple r && supported stmt
      | _, _ => false
      end
  | Switch cond stmt => simple cond && supported stmt
  | Case expr stmts => simple expr && forallb supported stmts
  | Default stmts => forallb supported stmts
  | _ => simple n
  end.

(** A computation that returns from every state *)
Definition succeeds {A} (m : M A) : Prop :=
  forall s, exists a s', m s = Ok a s'.

(** ** Parameter lists *)

(** A parameter of a class that has a field [name] *)
Definition has_name_field (param : node) : bool :=
  match param with
  | Decl _ _ _ | Typename _ _ | ID _ | FuncCall _ _ | ArrayRef _ _ => true
  | _ => false
  end.

(** ** Shapes of a for-loop *)

Definition is_assignment (o : option node) : bool :=
  match o with
  | Some (Assignment _ _ _) => true
  | _ => false
  end.

Definition is_binary_op (o : option node) : bool :=
  match o with
  | Some (BinaryOp _ _ _) => true
  | _ => false
  end.

(** ** Trees of further scenarios *)

(** [int main(void) { return 0; }]: pycparser gives the parameter list one
    [Typename] without a name, of type [void] *)
Definition main_void : node :=
  FuncDef
    (Decl (Some "main")
       (FuncDecl
          (Some (ParamList
                   [Typename None (TypeDecl None (IdentifierType ["void"]))]))
          (int_type (Some "main")))
       None)
    (Compound (Some [Return (Some (int_const "0"))])).

(** [int x = 5;], as a global declaration or as a statement *)
Definition x_is_5 : node :=
  Decl (Some "x") (int_type (Some "x")) (Some (int_const "5")).

(** [for (int i = 0; i < n; i++) { }]: the initializer is a [DeclList] *)
Definition c99_loop : node :=
  For (Some (Other DeclList
               [Decl (Some "i") (int_type (Some "i"))
                  (Some (int_const "0"))]))
      (Some (BinaryOp "<" (ID "i") (ID "n")))
      (Some (UnaryOp "p++" (ID "i")))
      (Compound None).

(** ** Shapes of a declaration *)

Definition is_type_decl (type : node) : bool :=
  match type with
  | TypeDecl _ _ => true
  | _ => false
  end.

Definition is_array_decl (type : node) : bool :=
  match type with
  | ArrayDecl _ _ => true
  | _ => false
  end.

(** [int a[3] = {1, 2, 3};] *)
Definition array_123 : node :=
  Decl (Some "a")
    (ArrayDecl (int_type (Some "a")) (Some (int_const "3")))
    (Some (Other InitList [int_const "1"; int_const "2"; int_const "3"])).

(** ** Lines that are not empty *)

(** A computation that, when it returns, has appended lines none of which
    is empty *)
Definition adds_nonblank {A} (m : M A) : Prop :=
  forall s a s', m s = Ok a s' ->
    exists added,
      lines s' = (lines s ++ added)%list /\
      Forall (fun line => line <> "") added.

(** ** The same visit one level deeper *)

(** [line] behind one more unit of indentation *)
Definition indented (line : string) : string := "    " ++ line.

(** [s] one level deeper *)
Definition deeper (s : CtoPythonTranspiler) : CtoPythonTranspiler :=
  {| lines := lines s;
     indent_level := indent_level s + 1;
     switch_var := switch_var s;
     case_seen := case_seen s |}.

(** [s2] is one level deeper than [s1], which is at depth [b] at least, and
    has the same switch context *)
Definition one_deeper (b : Z) (s1 s2 : CtoPythonTranspiler) : Prop :=
  indent_level s2 = (indent_level s1 + 1)%Z /\
  (b <= indent_level s1)%Z /\
  switch_var s1 = switch_var s2 /\
  case_seen s1 = case_seen s2.

(** Two runs, the second one level deeper than the first, that return the
    same value and append the same lines up to one unit of indentation, or
    raise the same exception *)
Definition shifted_run {A} (b : Z) (s1 s2 : CtoPythonTranspiler)
    (r1 r2 : result A) : Prop :=
  match r1, r2 with
  | Ok a1 t1, Ok a2 t2 =>
      a1 = a2 /\ one_deeper b t1 t2 /\
      exists added,
        lines t1 = (lines s1 ++ added)%list /\
        lines t2 = (lines s2 ++ map indented added)%list
  | Raise e1, Raise e2 => e1 = e2
  | _, _ => False
  end.

Definition shifts {A} (b : Z) (m : M A) : Prop :=
  forall s1 s2, one_deeper b s1 s2 -> shifted_run b s1 s2 (m s1) (m s2).

(** ** Texts with LF as their only line boundary *)

(** A text whose line boundaries are all LF *)
Fixpoint lf_only (s : string) : bool :=
  match s with
  | EmptyString => true
  | String c rest =>
      (negb (is_linebreak c) || Ascii.eqb c "010") && lf_only rest
  end.

(** [s] without its last character when that is LF *)
Fixpoint chomp (s : string) : string :=
  match s with
  | EmptyString => ""
  | String c rest =>
      match rest with
      | EmptyString => if Ascii.eqb c "010" then "" else s
      | _ => String c (chomp rest)
      end
  end.

(** ** The transport wrapper [transpile] of [server.py] *)

(** A JSON value as [request.get_json()] returns it: [None], a [bool], a
    number (kept as its literal), a [str], a [list] or a [dict], the
    latter as the list of its items, whose keys are distinct. *)
Inductive json : Type :=
| JNull
| JBool (b : bool)
| JNumber (literal : string)
| JString (s : string)
| JArray (items : list json)
| JObject (members : list (string * json)).

(** [d.get(key, default)] *)
Fixpoint dict_get (key : string) (members : list (string * json))
    (default : json) : json :=
  match members with
  | [] => default
  | (k, v) :: rest =>
      if String.eqb k key then v else dict_get key rest default
  end.

(** [key in d] *)
Definition dict_has (key : string) (members : list (string * json)) : bool :=
  existsb (fun kv => String.eqb (fst kv) key) members.

Definition is_string (v : json) : bool :=
  match v with
  | JString _ => true
  | _ => false
  end.

Definition is_object (v : json) : bool :=
  match v with
  | JObject _ => true
  | _ => false
  end.

Section Server.
Variable parse : string -> parsed.

(** [transpile], for the value [data] that [request.get_json()] returned:
    [data.get('code', '')] exists for a [dict] only, and the first
    statement of [convert_c_to_python] calls [c_code.splitlines()], which
    exists for a [str] only. *)
Definition transpile (data : json) : outcome :=
  match data with
  | JObject members =>
      match dict_get "code" members (JString "") with
      | JString c_code => convert_c_to_python parse c_code
      | _ => Raises AttributeError
      end
  | _ => Raises AttributeError
  end.
End Server.

(** ** Trees of a chain of conditions *)

(** [if (a) { f(); } else if (b) { g(); } else { h(); }] *)
Definition else_if_chain : node :=
  If (ID "a")
     (Compound (Some [call "f" []]))
     (Some (If (ID "b")
               (Compound (Some [call "g" []]))
               (Some (Compound (Some [call "h" []]))))).

(** ** The writes of the switch context during a visit *)










(** ** Inputs the generator does not translate *)

(** [void f() { for (i = 0; i < 10; i = i + 1) printf(i); }] *)
Definition unbraced_for_source : string :=
  "void f() { for (i = 0; i < 10; i = i + 1) printf(i); }".

(** The for-loop of [unbraced_for_source]: its body is the call itself,
    not a [Compound] *)
Definition unbraced_for : node :=
  For (Some (Assignment "=" (ID "i") (int_const "0")))
      (Some (BinaryOp "<" (ID "i") (int_const "10")))
      (step_by "1")
      (call "printf" [ID "i"]).

(** The tree pycparser builds for [unbraced_for_source] *)
Definition unbraced_for_ast : node :=
  FileAST
    [FuncDef
       (Decl (Some "f")
          (FuncDecl None (TypeDecl (Some "f") (IdentifierType ["void"])))
          None)
       (Compound (Some [unbraced_for]))].

(** [int main(void) { return 0; }] *)
Definition main_void_source : string := "int main(void) { return 0; }".

(** The parameter list of [f(void)]: one [Typename] without a name *)
Definition void_params : node :=
  ParamList [Typename None (TypeDecl None (IdentifierType ["void"]))].

(** * Part II: lemmas and theorems *)

(** Unfolds the method [visit] dispatched to. *)
Ltac unfold_methods :=
  unfold visit_FileAST, visit_FuncDef, visit_Compound, visit_Decl,
    visit_Assignment, visit_Return, visit_If, visit_While, visit_For,
    visit_ArrayRef, visit_Switch, visit_Case, visit_Default, visit_FuncCall,
    visit_ID, visit_Constant, visit_BinaryOp, visit_UnaryOp.

Ltac visit_unfold := repeat (progress (cbn [visit]; unfold_methods)).

(** ** The monad *)

Lemma bind_assoc {A B C} (m : M A) (k : A -> M B) (h : B -> M C) s :
  bind (bind m k) h s = bind m (fun a => bind (k a) h) s.
Proof. unfold bind. destruct (m s); reflexivity. Qed.

Lemma bind_ext {A B} (m : M A) (k1 k2 : A -> M B) s :
  (forall a s', k1 a s' = k2 a s') -> bind m k1 s = bind m k2 s.
Proof. intros H. unfold bind. destruct (m s); [apply H|reflexivity]. Qed.

Lemma bind_cong_l {A B} (m1 m2 : M A) (k : A -> M B) s :
  m1 s = m2 s -> bind m1 k s = bind m2 k s.
Proof. intros H. unfold bind. now rewrite H. Qed.

Lemma bind_ret_l {A B} (a : A) (k : A -> M B) s : bind (ret a) k s = k a s.
Proof. reflexivity. Qed.

Lemma bind_ok {A B} (m : M A) (k : A -> M B) s a s' :
  m s = Ok a s' -> bind m k s = k a s'.
Proof. intros H. unfold bind. now rewrite H. Qed.

(** ** Induction over the trees a visit reaches *)

Lemma size_In (m : node) (l : list node) :
  In m l -> size m <= list_sum (map size l).
Proof.
  induction l as [|x l IH]; simpl; [tauto|].
  intros [->|H]; [|apply IH in H]; lia.
Qed.

Lemma child_size m n : child m n -> size m < size n.
Proof.
  destruct 1; simpl;
    try match goal with H : In _ _ |- _ => apply size_In in H end; lia.
Qed.

Lemma node_child_ind (P : node -> Prop) :
  (forall n, (forall m, child m n -> P m) -> P n) -> forall n, P n.
Proof.
  intros step n.
  induction n as [n IH] using (induction_ltof1 node size).
  apply step. intros m Hm. apply IH. apply child_size, Hm.
Qed.

(** ** Visiting a node that only renders text *)

Lemma visit_list_simple (exprs : list node) :
  (forall m, In m exprs ->
     simple m = true -> forall s, visit m s = Ok (PStr (render m)) s) ->
  forallb simple exprs = true ->
  forall s, visit_list visit exprs s
            = Ok (map (fun m => PStr (render m)) exprs) s.
Proof.
  induction exprs as [|n l IH]; simpl; intros Hall Hs s; [reflexivity|].
  apply andb_true_iff in Hs as [H1 H2].
  unfold bind. rewrite (Hall n (or_introl eq_refl) H1).
  rewrite IH; auto.
Qed.

Lemma all_str_render (l : list node) :
  all_str (map (fun m => PStr (render m)) l) = Some (map render l).
Proof. induction l; simpl; [|rewrite IHl]; reflexivity. Qed.

Lemma visit_simple (n : node) :
  simple n = true -> forall s, visit n s = Ok (PStr (render n)) s.
Proof.
  induction n as [n IH] using node_child_ind.
  destruct n; intros Hs s; simpl in Hs; try discriminate; try reflexivity.
  - (* Decl *)
    destruct n; try reflexivity.
    + destruct init as [i|]; [|reflexivity].
      simpl. unfold_methods. unfold bind.
      rewrite (IH i); [reflexivity|constructor|exact Hs].
    + destruct dim as [d|]; [|reflexivity].
      simpl. unfold_methods. unfold bind.
      rewrite (IH d); [reflexivity|constructor|exact Hs].
  - (* Assignment *)
    apply andb_true_iff in Hs as [H1 H2]. simpl. unfold_methods. unfold bind.
    rewrite (IH n1), (IH n2); auto using child.
  - (* Return *)
    destruct expr as [e|]; [|reflexivity].
    simpl. unfold_methods. unfold bind.
    rewrite (IH e); [reflexivity|constructor|exact Hs].
  - (* ArrayRef *)
    apply andb_true_iff in Hs as [H1 H2]. simpl. unfold_methods. unfold bind.
    rewrite (IH n1), (IH n2); auto using child.
  - (* FuncCall *)
    apply andb_true_iff in Hs as [H1 H2]. simpl. unfold_methods. unfold bind.
    rewrite (IH n); auto using child.
    destruct args as [[]|]; try discriminate; simpl.
    + rewrite visit_list_simple; auto using child.
      unfold join. rewrite all_str_render. unfold ret.
      destruct (render n =? "printf")%string; reflexivity.
    + destruct (render n =? "printf")%string; reflexivity.
  - (* BinaryOp *)
    apply andb_true_iff in Hs as [H1 H2]. simpl. unfold_methods. unfold bind.
    rewrite (IH n1), (IH n2); auto using child.
  - (* UnaryOp *)
    simpl. unfold_methods. unfold bind. rewrite (IH n); auto using child.
Qed.

(** ** Computations that leave the emission state alone *)

Lemma pure_ret {A} (a : A) : pure_m (ret a).
Proof. intros s a' s' H. inversion H. reflexivity. Qed.

Lemma pure_raise {A} (e : exn) : pure_m (@raise A e).
Proof. intros s a s' H. discriminate H. Qed.

Lemma pure_bind {A B} (m : M A) (k : A -> M B) :
  pure_m m -> (forall a, pure_m (k a)) -> pure_m (bind m k).
Proof.
  intros Hm Hk s b s' H. unfold bind in H.
  destruct (m s) as [a s1|e] eqn:E; [|discriminate].
  apply Hm in E. subst s1. eapply Hk, H.
Qed.

Lemma pure_join sep items : pure_m (join sep items).
Proof.
  unfold join. destruct (all_str items); [apply pure_ret|apply pure_raise].
Qed.

Lemma pure_param_name p : pure_m (param_name p).
Proof. destruct p; simpl; first [apply pure_ret|apply pure_raise]. Qed.

Lemma pure_param_names ps : pure_m (param_names ps).
Proof.
  induction ps as [|p ps IH]; simpl; [apply pure_ret|].
  apply pure_bind; [apply pure_param_name|intro].
  apply pure_bind; [exact IH|intro; apply pure_ret].
Qed.

Lemma pure_get_func_args args : pure_m (_get_func_args args).
Proof.
  destruct args as [[]|]; simpl;
    first [apply pure_ret|apply pure_raise|idtac].
  apply pure_bind; [apply pure_param_names|intro; apply pure_join].
Qed.

Lemma pure_type_args t : pure_m (type_args t).
Proof. destruct t; simpl; first [apply pure_ret|apply pure_raise]. Qed.

Lemma pure_generic_visit cls : pure_m (generic_visit cls).
Proof. apply pure_ret. Qed.

(** ** The indentation depth across a visit *)

Lemma append_assoc (a b c : string) : (a ++ b) ++ c = a ++ (b ++ c).
Proof. induction a; simpl; [|rewrite IHa]; reflexivity. Qed.

Lemma append_nil_r (a : string) : a ++ "" = a.
Proof. induction a; simpl; [|rewrite IHa]; reflexivity. Qed.

Lemma str_repeat_S_r (u : string) (k : nat) :
  str_repeat u (S k) = str_repeat u k ++ u.
Proof.
  induction k as [|k IH]; simpl in *; [now rewrite append_nil_r|].
  rewrite IH at 1. now rewrite append_assoc.
Qed.

Lemma has_indent_deeper (d : Z) (line : string) :
  has_indent (indent_at (d + 1)) line -> has_indent (indent_at d) line.
Proof.
  intros [text ->]. unfold indent_at.
  destruct (Z.ltb_spec d 0) as [Hneg|Hpos].
  - replace (Z.to_nat d) with O by lia. simpl. now eexists.
  - replace (Z.to_nat (d + 1)) with (S (Z.to_nat d)) by lia.
    rewrite str_repeat_S_r, append_assoc. now eexists.
Qed.

Lemma moved_refl s : moved s s.
Proof.
  split; [reflexivity|]. exists []. now rewrite app_nil_r.
Qed.

Lemma moved_trans s1 s2 s3 : moved s1 s2 -> moved s2 s3 -> moved s1 s3.
Proof.
  intros [E1 (a1 & L1 & F1)] [E2 (a2 & L2 & F2)].
  split; [congruence|]. exists (a1 ++ a2)%list. split.
  - now rewrite L2, L1, app_assoc.
  - apply Forall_app. split; [exact F1|]. now rewrite <- E1.
Qed.

Lemma kd_pure {A} (m : M A) : pure_m m -> keeps_depth m.
Proof. intros Hm s a s' H. apply Hm in H. subst. apply moved_refl. Qed.

Lemma kd_bind {A B} (m : M A) (k : A -> M B) :
  keeps_depth m -> (forall a, keeps_depth (k a)) -> keeps_depth (bind m k).
Proof.
  intros Hm Hk s b s' H. unfold bind in H.
  destruct (m s) as [a s1|e] eqn:E; [|discriminate].
  eapply moved_trans; [eapply Hm, E|eapply Hk, H].
Qed.

Lemma kd_append_line text : keeps_depth (append_line text).
Proof.
  intros s a s' H. inversion H; subst; clear H. split; [reflexivity|].
  simpl. eexists. split; [reflexivity|].
  constructor; [|constructor]. now eexists.
Qed.

Lemma kd_append_code code : keeps_depth (append_code code).
Proof.
  unfold append_code. destruct (truthy code);
    [apply kd_append_line|apply kd_pure, pure_ret].
Qed.

Lemma kd_set_switch_var v : keeps_depth (set_switch_var v).
Proof.
  intros s a s' H. inversion H; subst; clear H. split; [reflexivity|].
  exists []. simpl. now rewrite app_nil_r.
Qed.

Lemma kd_set_case_seen b : keeps_depth (set_case_seen b).
Proof.
  intros s a s' H. inversion H; subst; clear H. split; [reflexivity|].
  exists []. simpl. now rewrite app_nil_r.
Qed.

Lemma kd_get_switch_var : keeps_depth get_switch_var.
Proof. apply kd_pure. intros s a s' H. now inversion H. Qed.

Lemma kd_get_case_seen : keeps_depth get_case_seen.
Proof. apply kd_pure. intros s a s' H. now inversion H. Qed.

(** The bracket [self.indent_level += 1; ...; self.indent_level -= 1] *)
Lemma kd_block {A B} (m : M A) (k : M B) :
  keeps_depth m -> keeps_depth k ->
  keeps_depth (add_indent 1 ;; m ;; add_indent (-1) ;; k).
Proof.
  intros Hm Hk s b s' H. unfold bind, add_indent in H.
  match type of H with
  | match m ?s1 with _ => _ end = _ =>
      destruct (m s1) as [a s2|e] eqn:E; [|discriminate];
      apply Hm in E; destruct E as [E (added & L & F)]
  end.
  apply Hk in H. simpl in *.
  eapply moved_trans; [|exact H].
  split; [simpl; lia|]. exists added. simpl. split; [exact L|].
  eapply Forall_impl; [|exact F]. intros line. apply has_indent_deeper.
Qed.

Lemma kd_visit_each_ (l : list node) :
  (forall m, In m l -> keeps_depth (visit m)) ->
  keeps_depth (visit_each_ visit l).
Proof.
  induction l as [|n l IH]; simpl; intros H; [apply kd_pure, pure_ret|].
  apply kd_bind; [apply H; now left|intro].
  apply IH. intros; apply H; now right.
Qed.

Lemma kd_visit_stmts (l : list node) :
  (forall m, In m l -> keeps_depth (visit m)) ->
  keeps_depth (visit_stmts visit l).
Proof.
  induction l as [|n l IH]; simpl; intros H; [apply kd_pure, pure_ret|].
  apply kd_bind; [apply H; now left|intro].
  apply kd_bind; [apply kd_append_code|intro].
  apply IH. intros; apply H; now right.
Qed.

Lemma kd_visit_list (l : list node) :
  (forall m, In m l -> keeps_depth (visit m)) ->
  keeps_depth (visit_list visit l).
Proof.
  induction l as [|n l IH]; simpl; intros H; [apply kd_pure, pure_ret|].
  apply kd_bind; [apply H; now left|intro].
  apply kd_bind; [|intro; apply kd_pure, pure_ret].
  apply IH. intros; apply H; now right.
Qed.

Ltac kd_step IH :=
  first
    [ match goal with H : In _ [] |- _ => destruct H end
    | apply kd_block
    | apply kd_bind; [|intro]
    | apply kd_append_line
    | apply kd_set_switch_var
    | apply kd_set_case_seen
    | apply kd_get_switch_var
    | apply kd_get_case_seen
    | apply kd_visit_stmts; intros
    | apply kd_visit_each_; intros
    | apply kd_visit_list; intros
    | apply kd_pure;
      first [ apply pure_ret | apply pure_raise | apply pure_join
            | apply pure_get_func_args | apply pure_type_args
            | apply pure_generic_visit ]
    | apply IH; eauto using child; fail
    | match goal with
      | |- keeps_depth (if ?b then _ else _) => destruct b
      | |- keeps_depth (match ?x with _ => _ end) => destruct x
      end ].

Lemma visit_keeps_depth (n : node) : keeps_depth (visit n).
Proof.
  induction n as [n IH] using node_child_ind.
  destruct n; simpl; unfold_methods; repeat kd_step IH.
Qed.

(** ** Blocks of statements that only render text *)

Lemma emit_nil s : emit [] s = s.
Proof. destruct s. unfold emit. simpl. now rewrite app_nil_r. Qed.

Lemma emit_emit a b s : emit b (emit a s) = emit (a ++ b) s.
Proof. unfold emit. simpl. now rewrite app_assoc. Qed.

Lemma append_line_emit text s :
  append_line text s = Ok tt (emit [indent_at (indent_level s) ++ text] s).
Proof. reflexivity. Qed.

Lemma append_code_emit text s :
  append_code (PStr text) s
  = Ok tt (emit (code_line (indent_level s) text) s).
Proof.
  unfold append_code. destruct text; simpl.
  - unfold ret. now rewrite emit_nil.
  - reflexivity.
Qed.

Lemma deeper_back (d : Z) : (d + 1 + -1 = d)%Z.
Proof. lia. Qed.

Lemma own_lines_simple (d : Z) (n : node) :
  simple n = true -> own_lines d n = [].
Proof. destruct n; intros H; try discriminate H; reflexivity. Qed.

Lemma simple_plain (n : node) : simple n = true -> plain n = true.
Proof. destruct n; intros H; try discriminate H; exact H. Qed.

(** The bracket around a nested block, when the block appends [body] *)
Lemma bracket_emit {A B} (header : string) (m : M A) (k : M B)
    (body : list string) (v : A) (s : CtoPythonTranspiler) :
  (forall s1, indent_level s1 = (indent_level s + 1)%Z ->
              m s1 = Ok v (emit body s1)) ->
  (append_line header ;; add_indent 1 ;; m ;; add_indent (-1) ;; k) s
  = k (emit ((indent s ++ header) :: body) s).
Proof.
  intros Hm. unfold bind at 1. cbn [append_line].
  unfold bind at 1. cbn [add_indent lines indent_level switch_var case_seen].
  unfold bind at 1. rewrite Hm by reflexivity.
  unfold bind, add_indent, emit.
  cbn [lines indent_level switch_var case_seen].
  now rewrite deeper_back, <- app_assoc.
Qed.

Lemma visit_stmts_plain_with (stmts : list node) :
  (forall m, In m stmts -> plain m = true ->
     forall s, visit m s
               = Ok (value_of m) (emit (own_lines (indent_level s) m) s)) ->
  forallb plain stmts = true ->
  forall s, visit_stmts visit stmts s
            = Ok tt (emit (block_lines (indent_level s) stmts) s).
Proof.
  induction stmts as [|n l IH]; intros Hall Hp s.
  - cbn. unfold ret. now rewrite emit_nil.
  - cbn [forallb] in Hp. apply andb_true_iff in Hp as [H1 H2].
    cbn [visit_stmts].
    rewrite (bind_ok _ _ _ _ _ (Hall n (or_introl eq_refl) H1 s)).
    assert (Hcode :
      append_code (value_of n) (emit (own_lines (indent_level s) n) s)
      = Ok tt (emit (own_lines (indent_level s) n
                     ++ value_line (indent_level s) n) s)).
    { unfold value_of, value_line. destruct (simple n).
      - rewrite append_code_emit, emit_emit. reflexivity.
      - cbn. unfold ret. now rewrite app_nil_r. }
    rewrite (bind_ok _ _ _ _ _ Hcode).
    rewrite IH; [|intros; apply Hall; [now right|assumption]|exact H2].
    rewrite emit_emit. reflexivity.
Qed.

Lemma visit_plain (n : node) :
  plain n = true ->
  forall s, visit n s
            = Ok (value_of n) (emit (own_lines (indent_level s) n) s).
Proof.
  induction n as [n IH] using node_child_ind. intros Hp s.
  destruct (simple n) eqn:Hs.
  - unfold value_of. rewrite Hs, (own_lines_simple _ _ Hs), emit_nil.
    now apply visit_simple.
  - unfold value_of. rewrite Hs.
    destruct n; cbn [plain] in Hp; try discriminate Hp;
      try (rewrite Hp in Hs; discriminate Hs).
    + (* Compound *)
      visit_unfold. destruct block_items as [items|].
      * rewrite (bind_ok _ _ _ _ _
                   (visit_stmts_plain_with items
                      (fun m Hin => IH m (child_Compound m items Hin)) Hp s)).
        reflexivity.
      * cbn. now rewrite emit_nil.
    + (* If *)
      apply andb_true_iff in Hp as [Hp Hf].
      apply andb_true_iff in Hp as [Hc Ht].
      visit_unfold. rewrite (bind_ok _ _ _ _ _ (visit_simple n1 Hc s)).
      cbn [fmt].
      rewrite (bracket_emit _ _ _ (own_lines (indent_level s + 1) n2)
                 (value_of n2)).
      2: { intros s1 E. rewrite <- E. apply IH; [constructor|exact Ht]. }
      destruct iffalse as [f|].
      * rewrite (bracket_emit _ _ _ (own_lines (indent_level s + 1) f)
                   (value_of f)).
        2: { intros s1 E. cbn [emit indent_level] in E. rewrite <- E.
             apply IH; [constructor|exact Hf]. }
        unfold ret. rewrite emit_emit. cbn [own_lines].
        unfold indent. cbn [emit indent_level]. reflexivity.
      * unfold ret. cbn [own_lines]. now rewrite app_nil_r.
    + (* While *)
      apply andb_true_iff in Hp as [Hc Ht].
      visit_unfold. rewrite (bind_ok _ _ _ _ _ (visit_simple n1 Hc s)).
      cbn [fmt].
      rewrite (bracket_emit _ _ _ (own_lines (indent_level s + 1) n2)
                 (value_of n2)).
      2: { intros s1 E. rewrite <- E. apply IH; [constructor|exact Ht]. }
      reflexivity.
    + (* For *)
      destruct init as [[]|]; try discriminate Hp.
      destruct cond as [[]|]; try discriminate Hp.
      apply andb_true_iff in Hp as [Hp Ht].
      apply andb_true_iff in Hp as [Hp He].
      apply andb_true_iff in Hp as [Hl Hr].
      visit_unfold.
      rewrite (bind_ok _ _ _ _ _ (visit_simple _ Hl s)).
      rewrite (bind_ok _ _ _ _ _ (visit_simple _ Hr s)).
      rewrite (bind_ok _ _ _ _ _ (visit_simple _ He s)).
      cbn [fmt].
      rewrite (bracket_emit _ _ _ (own_lines (indent_level s + 1) n)
                 (value_of n)).
      2: { intros s1 E. rewrite <- E. apply IH; [constructor|exact Ht]. }
      reflexivity.
Qed.






(** ** Indentation *)

(** C2: a visit that returns leaves the indentation depth at the value it
    had before the visit.  This holds of every node, hence of the nodes
    that bracket a block (function definition, if and else branch, while,
    for, case, default) and of every visit nested in them, at any depth of
    nesting.  From a non-negative depth the depth at return is
    non-negative, and every line appended during the visit starts with the
    indentation of the depth at entry: the depth only moves by the [+= 1]
    before a nested visit and the [-= 1] after it. *)
Theorem C2_indentation_restored
    (n : node) (s s' : CtoPythonTranspiler) (v : pyval) :
  visit n s = Ok v s' ->
  indent_level s' = indent_level s /\
  ((0 <= indent_level s)%Z -> (0 <= indent_level s')%Z) /\
  exists added,
    lines s' = (lines s ++ added)%list /\
    Forall (has_indent (indent s)) added.
Proof.
  intros H. apply visit_keeps_depth in H as [E (added & L & F)].
  split; [exact E|]. split; [lia|]. exists added. now split.
Qed.

Lemma C2_indentation_restored_witness :
  indent_level (final_state deep_nest) = indent_level init_transpiler /\
  ((0 <= indent_level init_transpiler)%Z ->
   (0 <= indent_level (final_state deep_nest))%Z) /\
  exists added,
    lines (final_state deep_nest) = (lines init_transpiler ++ added)%list /\
    Forall (has_indent (indent init_transpiler)) added.
Proof.
  apply (C2_indentation_restored deep_nest init_transpiler
           (final_state deep_nest) PNone).
  vm_compute. reflexivity.
Defined.

(** ** Nodes without a rule *)

Lemma visit_stmts_app (pre post : list node) (s : CtoPythonTranspiler) :
  visit_stmts visit (pre ++ post) s
  = (visit_stmts visit pre ;; visit_stmts visit post) s.
Proof.
  revert s. induction pre as [|n pre IH]; intros s; [reflexivity|].
  cbn [app visit_stmts]. rewrite bind_assoc.
  apply bind_ext. intros code s1. rewrite bind_assoc.
  apply bind_ext. intros _ s2. apply IH.
Qed.

Lemma visit_no_rule (n : node) (s : CtoPythonTranspiler) :
  has_rule n = false -> visit n s = Ok (PStr (unhandled (class_name n))) s.
Proof. destruct n; intros H; try discriminate H; reflexivity. Qed.

(** C3, amended: a node the generator has no rule for never aborts the
    visit, which returns the comment text naming the class of the node.
    When the node is a statement of a block (the loop shared by
    [visit_Compound], [visit_Case] and [visit_Default]), exactly that one
    line is appended at the current indentation, after the lines of the
    statements before it, and the statements after it are visited next.
    A pointer declaration is not such a node: [visit_Decl] handles it and
    returns the empty text, so the block appends no line for it. *)
Theorem C3_unhandled_statement
    (n : node) (pre post : list node) (s : CtoPythonTranspiler)
    (name : option string) (type : node) (init : option node) :
  has_rule n = false ->
  visit n s = Ok (PStr ("# [Unhandled: " ++ class_name n ++ "]")) s /\
  visit_stmts visit (pre ++ n :: post) s
  = (visit_stmts visit pre ;;
     append_line ("# [Unhandled: " ++ class_name n ++ "]") ;;
     visit_stmts visit post) s /\
  visit (Compound (Some (pre ++ n :: post)%list)) s
  = (visit_stmts visit pre ;;
     append_line ("# [Unhandled: " ++ class_name n ++ "]") ;;
     visit_stmts visit post ;;
     ret PNone) s /\
  visit_stmts visit (pre ++ Decl name (PtrDecl type) init :: post) s
  = (visit_stmts visit pre ;; visit_stmts visit post) s.
Proof.
  intros H.
  assert (Hblock : forall s0,
    visit_stmts visit (pre ++ n :: post) s0
    = (visit_stmts visit pre ;;
       append_line ("# [Unhandled: " ++ class_name n ++ "]") ;;
       visit_stmts visit post) s0).
  { intros s0. rewrite visit_stmts_app. apply bind_ext. intros _ s1.
    cbn [visit_stmts].
    rewrite (bind_ok _ _ _ _ _ (visit_no_rule n s1 H)). reflexivity. }
  split; [apply visit_no_rule, H|]. split; [apply Hblock|]. split.
  - visit_unfold. rewrite (bind_cong_l _ _ _ _ (Hblock s)).
    rewrite bind_assoc. apply bind_ext. intros _ s1.
    rewrite bind_assoc. reflexivity.
  - rewrite visit_stmts_app. apply bind_ext. intros _ s1. reflexivity.
Qed.

Lemma C3_unhandled_statement_witness :
  visit (Other Break []) init_transpiler
  = Ok (PStr "# [Unhandled: Break]") init_transpiler /\
  lines (final_state
           (Compound (Some [call "f" []; Other Break []; call "g" []])))
  = ["f()"; "# [Unhandled: Break]"; "g()"].
Proof.
  destruct (C3_unhandled_statement (Other Break []) [call "f" []]
              [call "g" []] init_transpiler None (int_type None) None
              eq_refl) as (Hv & _ & Hc & _).
  split; [exact Hv|]. unfold final_state.
  change ([call "f" []; Other Break []; call "g" []])
    with ([call "f" []] ++ Other Break [] :: [call "g" []])%list.
  rewrite Hc. vm_compute. reflexivity.
Defined.

(** C3 as stated fails on its own example: a block holding the pointer
    declaration [int *p;] appends no line at all. *)
Lemma C3_pointer_declaration_emits_nothing :
  has_rule pointer_decl = true /\
  visit (Compound (Some [pointer_decl])) init_transpiler
  = Ok PNone init_transpiler /\
  lines (final_state (Compound (Some [pointer_decl]))) = [].
Proof. split; [|split]; vm_compute; reflexivity. Qed.

(** ** Counting loops *)

(** A for-loop whose initializer is an assignment [var = start] and whose
    condition is a comparison with right operand [end] appends
    [for <var> in range(<start>, <end>):] at the current indentation and
    visits its body one level deeper; the step clause is never read, so
    two loops that differ only in it are translated alike. *)
Lemma visit_For_counting
    (op bop : string) (var start l end_ body : node)
    (next next' : option node) (s : CtoPythonTranspiler) :
  simple var = true -> simple start = true -> simple end_ = true ->
  let header := "for " ++ render var ++ " in range(" ++ render start
                ++ ", " ++ render end_ ++ "):" in
  let loop nx b :=
    For (Some (Assignment op var start)) (Some (BinaryOp bop l end_)) nx b in
  visit (loop next body) s
  = (append_line header ;;
     add_indent 1 ;; visit body ;; add_indent (-1) ;; ret PNone) s /\
  (plain body = true ->
   visit (loop next body) s
   = Ok PNone
       (emit ((indent s ++ header) :: own_lines (indent_level s + 1) body)
          s)) /\
  visit (loop next' body) s = visit (loop next body) s.
Proof.
  intros Hv Hs He header loop.
  assert (Hgen : forall nx b,
    visit (loop nx b) s
    = (append_line header ;;
       add_indent 1 ;; visit b ;; add_indent (-1) ;; ret PNone) s).
  { intros nx b. subst loop. visit_unfold.
    rewrite (bind_ok _ _ _ _ _ (visit_simple var Hv s)).
    rewrite (bind_ok _ _ _ _ _ (visit_simple start Hs s)).
    rewrite (bind_ok _ _ _ _ _ (visit_simple end_ He s)).
    reflexivity. }
  split; [apply Hgen|]. split; [|now rewrite !Hgen].
  intros Hb. rewrite Hgen.
  rewrite (bracket_emit _ _ _ (own_lines (indent_level s + 1) body)
             (value_of body)); [reflexivity|].
  intros s1 E. rewrite <- E. now apply visit_plain.
Qed.

(** C4: the body of a counting for-loop is lost when it is not a block.
    [visit_For] visits [node.stmt] and drops what the visit returns; a
    statement that is an expression, a declaration or a [return] only
    returns its text (it is [visit_Compound] that appends the text of the
    statements of a block), so for such a body the header line is all
    that is emitted, whereas the same statement in braces follows the
    header one level deeper.  The text
    [void f() { for (i = 0; i < 10; i = i + 1) printf(i); }] is
    translated to [def f():] and [    for i in range(0, 10):], without the
    call. *)
Theorem C4_for_body_without_braces_lost
    (parse : string -> parsed)
    (op bop : string) (var start l end_ body : node) (next : option node)
    (s : CtoPythonTranspiler) :
  parse unbraced_for_source = Tree unbraced_for_ast ->
  simple var = true -> simple start = true -> simple end_ = true ->
  simple body = true -> render body <> "" ->
  let header := "for " ++ render var ++ " in range(" ++ render start
                ++ ", " ++ render end_ ++ "):" in
  let loop b :=
    For (Some (Assignment op var start)) (Some (BinaryOp bop l end_)) next b in
  visit (loop body) s = Ok PNone (emit [indent s ++ header] s) /\
  visit (loop (Compound (Some [body]))) s
  = Ok PNone
      (emit [indent s ++ header;
             indent_at (indent_level s + 1) ++ render body] s) /\
  convert_c_to_python parse unbraced_for_source
  = Returns ("def f():" ++ nl ++ "    for i in range(0, 10):").
Proof.
  intros Hparse Hv Hs He Hb Hne header loop.
  assert (Hgen : forall b,
    visit (loop b) s
    = (append_line header ;;
       add_indent 1 ;; visit b ;; add_indent (-1) ;; ret PNone) s).
  { intros b. subst loop. visit_unfold.
    rewrite (bind_ok _ _ _ _ _ (visit_simple var Hv s)).
    rewrite (bind_ok _ _ _ _ _ (visit_simple start Hs s)).
    rewrite (bind_ok _ _ _ _ _ (visit_simple end_ He s)).
    reflexivity. }
  split; [|split].
  - rewrite Hgen.
    rewrite (bracket_emit _ _ _ (own_lines (indent_level s + 1) body)
               (value_of body)).
    + destruct body; try discriminate Hb; reflexivity.
    + intros s1 E. rewrite <- E. apply visit_plain.
      destruct body; try discriminate Hb; exact Hb.
  - rewrite Hgen.
    rewrite (bracket_emit _ _ _
               (own_lines (indent_level s + 1) (Compound (Some [body])))
               (value_of (Compound (Some [body])))).
    + cbn [own_lines flat_map]. unfold value_line, code_line. rewrite Hb.
      destruct body; try discriminate Hb; cbn [own_lines app];
        destruct (render _) eqn:R; try reflexivity; now destruct Hne.
    + intros s1 E. rewrite <- E. apply visit_plain.
      cbn [plain forallb]. rewrite andb_true_r.
      destruct body; try discriminate Hb; exact Hb.
  - unfold convert_c_to_python.
    replace (remove_preprocessor_lines unbraced_for_source)
      with unbraced_for_source by (vm_compute; reflexivity).
    rewrite Hparse. vm_compute. reflexivity.
Qed.

Lemma C4_for_body_without_braces_lost_witness :
  visit unbraced_for init_transpiler
  = Ok PNone (emit ["for i in range(0, 10):"] init_transpiler) /\
  visit (count_loop (step_by "1")) init_transpiler
  = Ok PNone
      (emit ["for i in range(0, 10):"; "    print(i)"] init_transpiler) /\
  convert_c_to_python (fun _ => Tree unbraced_for_ast) unbraced_for_source
  = Returns ("def f():" ++ nl ++ "    for i in range(0, 10):").
Proof.
  refine (C4_for_body_without_braces_lost (fun _ => Tree unbraced_for_ast)
            "=" "<" (ID "i") (int_const "0") (ID "i") (int_const "10")
            (call "printf" [ID "i"]) (step_by "1") init_transpiler
            eq_refl eq_refl eq_refl eq_refl eq_refl _).
  vm_compute. discriminate.
Defined.

(** ** Switch statements *)





(** ** Function definitions *)

Lemma all_str_PStr (names : list string) :
  all_str (map PStr names) = Some names.
Proof. induction names; simpl; [|rewrite IHnames]; reflexivity. Qed.

Lemma param_names_declared (params : list node) (names : list string) s :
  map declared_name params = map Some names ->
  param_names params s = Ok (map PStr names) s.
Proof.
  revert names. induction params as [|p ps IH]; intros [|nm names] H;
    try discriminate H; [reflexivity|].
  cbn [map] in H. injection H as Hp Hps. cbn [param_names].
  assert (Hn : param_name p s = Ok (PStr nm) s).
  { destruct p; cbn [declared_name] in Hp; try discriminate Hp;
      subst; try reflexivity; injection Hp as ->; reflexivity. }
  rewrite (bind_ok _ _ _ _ _ Hn), (bind_ok _ _ _ _ _ (IH _ Hps)).
  reflexivity.
Qed.

Lemma get_func_args_declared (params : list node) (names : list string) s :
  map declared_name params = map Some names ->
  _get_func_args (Some (ParamList params)) s
  = Ok (String.concat ", " names) s.
Proof.
  intros H. cbn [_get_func_args].
  rewrite (bind_ok _ _ _ _ _ (param_names_declared _ _ s H)).
  unfold join. now rewrite all_str_PStr.
Qed.

(** With the tree pycparser builds for it, the text
    [int add(a, b) { return a + b; }] is translated to the two lines
    [def add(a, b):] and [    return a + b].  A function definition whose
    parameters all declare a name appends
    [def <name>(<names joined by ', '>):] at the current indentation and
    visits its body one level deeper; with the parameter list [()] the
    list between the parentheses is empty. *)
Lemma visit_FuncDef_named
    (parse : string -> parsed)
    (fname : option string) (params : list node) (names : list string)
    (rtype body : node) (dinit : option node) (s : CtoPythonTranspiler) :
  parse add_source = Tree add_ast ->
  map declared_name params = map Some names ->
  let header args := "def " ++ fmt (of_option fname) ++ "(" ++ args ++ "):" in
  let def args b := FuncDef (Decl fname (FuncDecl args rtype) dinit) b in
  convert_c_to_python parse add_source
  = Returns ("def add(a, b):" ++ nl ++ "    return a + b") /\
  visit (def (Some (ParamList params)) body) s
  = (append_line (header (String.concat ", " names)) ;;
     add_indent 1 ;; visit body ;; add_indent (-1) ;; ret PNone) s /\
  (plain body = true ->
   visit (def (Some (ParamList params)) body) s
   = Ok PNone
       (emit ((indent s ++ header (String.concat ", " names))
                :: own_lines (indent_level s + 1) body) s)) /\
  visit (def None body) s
  = (append_line (header "") ;;
     add_indent 1 ;; visit body ;; add_indent (-1) ;; ret PNone) s /\
  visit (def (Some (ParamList [])) body) s = visit (def None body) s.
Proof.
  intros Hparse Hnames header def.
  assert (Hgen : forall b,
    visit (def (Some (ParamList params)) b) s
    = (append_line (header (String.concat ", " names)) ;;
       add_indent 1 ;; visit b ;; add_indent (-1) ;; ret PNone) s).
  { intros b. subst def. visit_unfold; cbn [type_args].
    rewrite bind_ret_l.
    rewrite (bind_ok _ _ _ _ _ (get_func_args_declared _ _ s Hnames)).
    reflexivity. }
  split; [|split; [apply Hgen|split; [|split]]].
  - unfold convert_c_to_python.
    replace (remove_preprocessor_lines add_source) with add_source
      by (vm_compute; reflexivity).
    rewrite Hparse. vm_compute. reflexivity.
  - intros Hb. rewrite Hgen.
    rewrite (bracket_emit _ _ _ (own_lines (indent_level s + 1) body)
               (value_of body)); [reflexivity|].
    intros s1 E. rewrite <- E. now apply visit_plain.
  - subst def. visit_unfold; cbn [type_args]. rewrite bind_ret_l.
    cbn [_get_func_args]. rewrite bind_ret_l. reflexivity.
  - subst def. visit_unfold; cbn [type_args]. rewrite !bind_ret_l.
    cbn [_get_func_args param_names]. rewrite !bind_ret_l.
    reflexivity.
Qed.

(** C7: a function definition with the parameter list [(void)] is not
    translated.  pycparser gives that list one [Typename] whose [name] is
    [None]; [_get_func_args] collects the names and [', '.join] raises a
    [TypeError] before any line is appended, whatever the name, the body
    and the state.  [convert_c_to_python] does not handle it: for
    [int main(void) { return 0; }] the exception reaches the caller. *)
Theorem C7_void_parameter_list_raises
    (parse : string -> parsed)
    (fname : option string) (rtype body : node) (dinit : option node)
    (s : CtoPythonTranspiler) :
  parse main_void_source = Tree (FileAST [main_void]) ->
  visit (FuncDef (Decl fname (FuncDecl (Some void_params) rtype) dinit) body) s
  = Raise TypeError /\
  convert_c_to_python parse main_void_source = Raises TypeError.
Proof.
  intros Hparse. split; [reflexivity|].
  unfold convert_c_to_python.
  replace (remove_preprocessor_lines main_void_source)
    with main_void_source by (vm_compute; reflexivity).
  rewrite Hparse. vm_compute. reflexivity.
Qed.

Lemma C7_void_parameter_list_raises_witness :
  visit main_void init_transpiler = Raise TypeError /\
  convert_c_to_python (fun _ => Tree (FileAST [main_void])) main_void_source
  = Raises TypeError.
Proof.
  exact (C7_void_parameter_list_raises
           (fun _ => Tree (FileAST [main_void]))
           (Some "main") (int_type (Some "main"))
           (Compound (Some [Return (Some (int_const "0"))])) None
           init_transpiler eq_refl).
Defined.

(** ** Unary operations *)

Lemma length_append (a b : string) :
  String.length (a ++ b) = String.length a + String.length b.
Proof. induction a as [|c a IH]; simpl; [|rewrite IH]; reflexivity. Qed.

Lemma append_inj_l (a b x : string) : a ++ x = b ++ x -> a = b.
Proof.
  revert b. induction a as [|c a IH]; intros [|d b] H.
  - reflexivity.
  - apply (f_equal String.length) in H. simpl in H.
    rewrite length_append in H. lia.
  - apply (f_equal String.length) in H. simpl in H.
    rewrite length_append in H. lia.
  - simpl in H. injection H as -> H. f_equal. now apply IH.
Qed.

(** C9, amended: a unary operation is rendered as the operator string of
    the node followed, with nothing in between, by the text of its
    operand, whatever the operator; the state is left as it was.  The rule
    has no case of its own for the postfix operators, which the tree
    writes [p++] and [p--]: they are rendered with that string before the
    operand.  Two operations on the same operand are rendered alike only
    if their operator strings are equal, so a postfix operation is not
    rendered as the prefix one. *)
Theorem C9_unary_op_string_first
    (op op' : string) (expr : node) (s : CtoPythonTranspiler) :
  simple expr = true ->
  visit (UnaryOp op expr) s = Ok (PStr (op ++ render expr)) s /\
  (visit (UnaryOp op' expr) s = visit (UnaryOp op expr) s -> op' = op).
Proof.
  intros He.
  assert (H : forall o, visit (UnaryOp o expr) s
                        = Ok (PStr (o ++ render expr)) s)
    by (intro o; now apply (visit_simple (UnaryOp o expr))).
  split; [apply H|].
  rewrite !H. intros E. injection E as E. exact (append_inj_l _ _ _ E).
Qed.

Lemma C9_unary_op_string_first_witness :
  visit (UnaryOp "p--" (ID "i")) init_transpiler
  = Ok (PStr "p--i") init_transpiler /\
  visit (UnaryOp "--" (ID "i")) init_transpiler
  <> visit (UnaryOp "p--" (ID "i")) init_transpiler.
Proof.
  destruct (C9_unary_op_string_first "p--" "--" (ID "i") init_transpiler
              eq_refl) as [Hpost Hop].
  split; [exact Hpost|].
  intros E. apply Hop in E. discriminate E.
Defined.

(** C9 as stated fails for the postfix operators: [i++] is rendered
    [p++i], neither the operator symbol [++] directly followed by the
    operand nor the text [++i] of the prefix form. *)
Lemma C9_postfix_not_rendered_as_prefix :
  visit (UnaryOp "p++" (ID "i")) init_transpiler
  = Ok (PStr "p++i") init_transpiler /\
  visit (UnaryOp "++" (ID "i")) init_transpiler
  = Ok (PStr "++i") init_transpiler /\
  visit (UnaryOp "p++" (ID "i")) init_transpiler
  <> visit (UnaryOp "++" (ID "i")) init_transpiler.
Proof.
  split; [reflexivity|]. split; [reflexivity|].
  vm_compute. discriminate.
Qed.

(** ** Exceptions that reach the caller *)

Lemma parse_failure_is_reported (parse : string -> parsed) (c_code e : string) :
  parse (remove_preprocessor_lines c_code) = ParseError e ->
  convert_c_to_python parse c_code
  = Returns ("# Error: Could not parse C code." ++ nl ++ "# Details: " ++ e).
Proof. intros H. unfold convert_c_to_python. now rewrite H. Qed.

(** C1: [convert_c_to_python] does not always return text.  The text
    [void f() { for (;;) { } }] parses, and [visit_For] then reads
    [node.init.lvalue] of an initializer that is [None]: the
    [AttributeError] is not a [ParseError], so the handler of
    [convert_c_to_python] lets it through to the caller. *)
Theorem C1_for_without_init_raises (parse : string -> parsed) :
  parse forever_source = Tree forever_ast ->
  convert_c_to_python parse forever_source = Raises AttributeError.
Proof.
  intros H. unfold convert_c_to_python.
  replace (remove_preprocessor_lines forever_source) with forever_source
    by (vm_compute; reflexivity).
  rewrite H. vm_compute. reflexivity.
Qed.

Lemma C1_for_without_init_raises_witness :
  convert_c_to_python (fun _ => Tree forever_ast) forever_source
  = Raises AttributeError.
Proof.
  exact (C1_for_without_init_raises (fun _ => Tree forever_ast) eq_refl).
Defined.

(** ** A switch nested in a case *)
































(** ** Independence of the state left by earlier visits *)

Lemma stateless_ret {A} (a : A) : stateless (ret a).
Proof. left. now exists a. Qed.

Lemma stateless_raise {A} (e : exn) : stateless (@raise A e).
Proof. right. now exists e. Qed.

Lemma stateless_bind {A B} (m : M A) (k : A -> M B) :
  stateless m -> (forall a, stateless (k a)) -> stateless (bind m k).
Proof.
  intros [[a Ha]|[e He]] Hk.
  - destruct (Hk a) as [[b Hb]|[e He]]; [left; exists b|right; exists e];
      intros s; unfold bind; rewrite Ha; auto.
  - right. exists e. intros s. unfold bind. now rewrite He.
Qed.

Lemma stateless_join sep items : stateless (join sep items).
Proof.
  unfold join. destruct (all_str items);
    [apply stateless_ret|apply stateless_raise].
Qed.

Lemma stateless_param_name p : stateless (param_name p).
Proof.
  destruct p; simpl; first [apply stateless_ret|apply stateless_raise].
Qed.

Lemma stateless_param_names ps : stateless (param_names ps).
Proof.
  induction ps as [|p ps IH]; simpl; [apply stateless_ret|].
  apply stateless_bind; [apply stateless_param_name|intro].
  apply stateless_bind; [exact IH|intro; apply stateless_ret].
Qed.

Lemma stateless_get_func_args args : stateless (_get_func_args args).
Proof.
  destruct args as [[]|]; simpl;
    first [apply stateless_ret|apply stateless_raise|idtac].
  apply stateless_bind; [apply stateless_param_names|intro].
  apply stateless_join.
Qed.

Lemma stateless_type_args t : stateless (type_args t).
Proof.
  destruct t; simpl; first [apply stateless_ret|apply stateless_raise].
Qed.

Lemma same_run_refl {A} strict s1 s2 (a : A) :
  same_context strict s1 s2 -> same_run strict s1 s2 (Ok a s1) (Ok a s2).
Proof.
  intros H. split; [reflexivity|]. split; [exact H|].
  exists []. now rewrite !app_nil_r.
Qed.

Lemma indep_stateless {A} strict (m : M A) : stateless m -> indep strict m.
Proof.
  intros [[a Ha]|[e He]] s1 s2 H.
  - rewrite !Ha. now apply same_run_refl.
  - rewrite !He. reflexivity.
Qed.

Lemma indep_bind {A B} strict (m : M A) (k : A -> M B) :
  indep strict m -> (forall a, indep strict (k a)) -> indep strict (bind m k).
Proof.
  intros Hm Hk s1 s2 H. unfold bind. specialize (Hm s1 s2 H).
  destruct (m s1) as [a1 t1|e1], (m s2) as [a2 t2|e2]; try contradiction.
  - destruct Hm as (-> & Hc & added & L1 & L2).
    specialize (Hk a2 t1 t2 Hc).
    destruct (k a2 t1) as [b1 u1|x1], (k a2 t2) as [b2 u2|x2];
      try contradiction; [|exact Hk].
    destruct Hk as (-> & Hc' & added' & M1 & M2).
    split; [reflexivity|]. split; [exact Hc'|].
    exists (added ++ added')%list.
    rewrite M1, M2, L1, L2, !app_assoc. now split.
  - exact Hm.
Qed.

Lemma indep_append_line strict text : indep strict (append_line text).
Proof.
  intros s1 s2 (Hd & Hv & Hc). split; [reflexivity|]. split.
  - now split.
  - exists [indent s1 ++ text]. split; [reflexivity|].
    simpl. unfold indent. now rewrite Hd.
Qed.

Lemma indep_append_code strict code : indep strict (append_code code).
Proof.
  unfold append_code. destruct (truthy code);
    [apply indep_append_line|apply indep_stateless, stateless_ret].
Qed.

Lemma indep_add_indent strict d : indep strict (add_indent d).
Proof.
  intros s1 s2 (Hd & Hv & Hc). split; [reflexivity|]. split.
  - split; [simpl; now rewrite Hd|now split].
  - exists []. simpl. now rewrite !app_nil_r.
Qed.

Lemma indep_set_switch_var strict v : indep strict (set_switch_var v).
Proof.
  intros s1 s2 (Hd & Hv & Hc). split; [reflexivity|]. split.
  - now split.
  - exists []. simpl. now rewrite !app_nil_r.
Qed.

Lemma indep_get_switch_var strict : indep strict get_switch_var.
Proof.
  intros s1 s2 (Hd & Hv & Hc). split; [exact Hv|]. split.
  - now split.
  - exists []. now rewrite !app_nil_r.
Qed.

Lemma indep_get_case_seen : indep true get_case_seen.
Proof.
  intros s1 s2 (Hd & Hv & Hc). split; [now apply Hc|]. split.
  - now split.
  - exists []. now rewrite !app_nil_r.
Qed.

(** After [self.case_seen = b] the flag no longer depends on the past. *)
Lemma indep_set_case_seen {A} strict (b : bool) (k : M A) :
  indep true k -> indep strict (set_case_seen b ;; k).
Proof.
  intros Hk s1 s2 (Hd & Hv & Hc). unfold bind, set_case_seen.
  match goal with
  | |- same_run _ _ _ (k ?t1) (k ?t2) =>
      assert (H : same_context true t1 t2) by (now split; [|split]);
      specialize (Hk t1 t2 H);
      destruct (k t1) as [a1 u1|e1], (k t2) as [a2 u2|e2];
      try contradiction; [|exact Hk]
  end.
  destruct Hk as (-> & (Hd' & Hv' & Hc') & added & L1 & L2).
  split; [reflexivity|]. split; [split; [exact Hd'|split; [exact Hv'|]]|].
  - intros _. now apply Hc'.
  - exists added. now split.
Qed.

Section IndepLoops.
Variable strict : bool.

Lemma indep_visit_each_ (l : list node) :
  (forall m, In m l -> indep strict (visit m)) ->
  indep strict (visit_each_ visit l).
Proof.
  induction l as [|n l IH]; simpl; intros H;
    [apply indep_stateless, stateless_ret|].
  apply indep_bind; [apply H; now left|intro].
  apply IH. intros; apply H; now right.
Qed.

Lemma indep_visit_stmts (l : list node) :
  (forall m, In m l -> indep strict (visit m)) ->
  indep strict (visit_stmts visit l).
Proof.
  induction l as [|n l IH]; simpl; intros H;
    [apply indep_stateless, stateless_ret|].
  apply indep_bind; [apply H; now left|intro].
  apply indep_bind; [apply indep_append_code|intro].
  apply IH. intros; apply H; now right.
Qed.

Lemma indep_visit_list (l : list node) :
  (forall m, In m l -> indep strict (visit m)) ->
  indep strict (visit_list visit l).
Proof.
  induction l as [|n l IH]; simpl; intros H;
    [apply indep_stateless, stateless_ret|].
  apply indep_bind; [apply H; now left|intro].
  apply indep_bind; [|intro; apply indep_stateless, stateless_ret].
  apply IH. intros; apply H; now right.
Qed.
End IndepLoops.

Ltac indep_step IH :=
  first
    [ match goal with H : In _ [] |- _ => destruct H end
    | apply indep_get_case_seen
    | apply indep_set_case_seen
    | apply indep_bind; [|intro]
    | apply indep_append_line
    | apply indep_add_indent
    | apply indep_set_switch_var
    | apply indep_get_switch_var
    | apply indep_visit_stmts; intros
    | apply indep_visit_each_; intros
    | apply indep_visit_list; intros
    | apply indep_stateless;
      first [ apply stateless_ret | apply stateless_raise
            | apply stateless_join | apply stateless_get_func_args
            | apply stateless_type_args ]
    | apply IH; eauto using child; fail
    | match goal with
      | |- indep _ (if ?b then _ else _) => destruct b
      | |- indep _ (match ?x with _ => _ end) => destruct x
      end ].

Lemma visit_indep_strict (n : node) : indep true (visit n).
Proof.
  induction n as [n IH] using node_child_ind.
  destruct n; simpl; unfold_methods; unfold generic_visit;
    repeat indep_step IH.
Qed.

Ltac guard_hyps :=
  repeat match goal with
         | H : _ && _ = true |- _ => apply andb_true_iff in H as [? ?]
         end.

Ltac guarded_step IH :=
  first
    [ match goal with H : In _ [] |- _ => destruct H end
    | match goal with
      | |- indep true (visit _) => apply visit_indep_strict
      | |- indep false (visit ?m) =>
          apply IH;
          [ eauto using child; fail
          | first [ assumption
                  | match goal with
                    | H : forallb guarded ?l = true, Hin : In m ?l |- _ =>
                        exact (proj1 (forallb_forall guarded l) H m Hin)
                    end ] ]
      end
    | apply indep_get_case_seen
    | apply indep_set_case_seen
    | apply indep_bind; [|intro]
    | apply indep_append_line
    | apply indep_add_indent
    | apply indep_set_switch_var
    | apply indep_get_switch_var
    | apply indep_visit_stmts; intros
    | apply indep_visit_each_; intros
    | apply indep_visit_list; intros
    | apply indep_stateless;
      first [ apply stateless_ret | apply stateless_raise
            | apply stateless_join | apply stateless_get_func_args
            | apply stateless_type_args ]
    | match goal with
      | |- indep _ (if ?b then _ else _) => destruct b
      | |- indep _ (match ?x with _ => _ end) =>
          destruct x; simpl in *; guard_hyps
      end ].

Lemma visit_indep_guarded (n : node) :
  guarded n = true -> indep false (visit n).
Proof.
  induction n as [n IH] using node_child_ind.
  intros Hg. destruct n; simpl in Hg; try discriminate Hg; guard_hyps;
    simpl; unfold_methods; unfold generic_visit; repeat guarded_step IH.
Qed.

(** ** The discriminant after a visit *)

Lemma sv_kept_pure {A} (m : M A) : pure_m m -> sv_kept m.
Proof. intros Hm s a s' H. apply Hm in H. subst. now left. Qed.

Lemma sv_kept_bind {A B} (m : M A) (k : A -> M B) :
  sv_kept m -> (forall a, sv_kept (k a)) -> sv_kept (bind m k).
Proof.
  intros Hm Hk s b s' H. unfold bind in H.
  destruct (m s) as [a s1|e] eqn:E; [|discriminate].
  apply Hm in E. apply Hk in H. destruct H as [H|H]; [|now right].
  rewrite H. exact E.
Qed.

Lemma sv_cleared_bind {A B} (m : M A) (k : A -> M B) :
  (forall a, sv_cleared (k a)) -> sv_cleared (bind m k).
Proof.
  intros Hk s b s' H. unfold bind in H.
  destruct (m s) as [a s1|e]; [|discriminate]. eapply Hk, H.
Qed.

Lemma sv_cleared_last {A} (a : A) :
  sv_cleared (set_switch_var PNone ;; ret a).
Proof. intros s b s' H. inversion H. reflexivity. Qed.

Lemma sv_kept_cleared {A} (m : M A) : sv_cleared m -> sv_kept m.
Proof. intros Hm s a s' H. right. eapply Hm, H. Qed.

Lemma sv_kept_append_line text : sv_kept (append_line text).
Proof. intros s a s' H. inversion H. now left. Qed.

Lemma sv_kept_append_code code : sv_kept (append_code code).
Proof.
  unfold append_code. destruct (truthy code);
    [apply sv_kept_append_line|apply sv_kept_pure, pure_ret].
Qed.

Lemma sv_kept_add_indent d : sv_kept (add_indent d).
Proof. intros s a s' H. inversion H. now left. Qed.

Lemma sv_kept_set_case_seen b : sv_kept (set_case_seen b).
Proof. intros s a s' H. inversion H. now left. Qed.

Lemma sv_kept_get_switch_var : sv_kept get_switch_var.
Proof. intros s a s' H. inversion H. now left. Qed.

Lemma sv_kept_get_case_seen : sv_kept get_case_seen.
Proof. intros s a s' H. inversion H. now left. Qed.

Lemma sv_kept_visit_each_ (l : list node) :
  (forall m, In m l -> sv_kept (visit m)) -> sv_kept (visit_each_ visit l).
Proof.
  induction l as [|n l IH]; simpl; intros H; [apply sv_kept_pure, pure_ret|].
  apply sv_kept_bind; [apply H; now left|intro].
  apply IH. intros; apply H; now right.
Qed.

Lemma sv_kept_visit_stmts (l : list node) :
  (forall m, In m l -> sv_kept (visit m)) -> sv_kept (visit_stmts visit l).
Proof.
  induction l as [|n l IH]; simpl; intros H; [apply sv_kept_pure, pure_ret|].
  apply sv_kept_bind; [apply H; now left|intro].
  apply sv_kept_bind; [apply sv_kept_append_code|intro].
  apply IH. intros; apply H; now right.
Qed.

Lemma sv_kept_visit_list (l : list node) :
  (forall m, In m l -> sv_kept (visit m)) -> sv_kept (visit_list visit l).
Proof.
  induction l as [|n l IH]; simpl; intros H; [apply sv_kept_pure, pure_ret|].
  apply sv_kept_bind; [apply H; now left|intro].
  apply sv_kept_bind; [|intro; apply sv_kept_pure, pure_ret].
  apply IH. intros; apply H; now right.
Qed.

Ltac sv_step IH :=
  first
    [ match goal with H : In _ [] |- _ => destruct H end
    | apply sv_kept_bind; [|intro]
    | apply sv_kept_append_line
    | apply sv_kept_add_indent
    | apply sv_kept_set_case_seen
    | apply sv_kept_get_switch_var
    | apply sv_kept_get_case_seen
    | apply sv_kept_visit_stmts; intros
    | apply sv_kept_visit_each_; intros
    | apply sv_kept_visit_list; intros
    | apply sv_kept_pure;
      first [ apply pure_ret | apply pure_raise | apply pure_join
            | apply pure_get_func_args | apply pure_type_args
            | apply pure_generic_visit ]
    | apply IH; eauto using child; fail
    | match goal with
      | |- sv_kept (if ?b then _ else _) => destruct b
      | |- sv_kept (match ?x with _ => _ end) => destruct x
      end ].

Lemma visit_Switch_clears (cond stmt : node) :
  sv_cleared (visit (Switch cond stmt)).
Proof.
  visit_unfold.
  repeat first [apply sv_cleared_last | apply sv_cleared_bind; intro].
Qed.

Lemma visit_sv_kept (n : node) : sv_kept (visit n).
Proof.
  induction n as [n IH] using node_child_ind.
  destruct n; try (apply sv_kept_cleared, visit_Switch_clears);
    simpl; unfold_methods; repeat sv_step IH.
Qed.

(** ** Top-level definitions in either order *)

Lemma visit_guarded_later (n : node) (block : list string) s :
  guarded n = true -> block_of n = Some block ->
  indent_level s = 0%Z -> switch_var s = PNone ->
  exists v s',
    visit n s = Ok v s' /\ lines s' = (lines s ++ block)%list /\
    indent_level s' = 0%Z /\ switch_var s' = PNone.
Proof.
  intros Hg Hb Hd Hv. unfold block_of in Hb.
  destruct (visit n init_transpiler) as [v t|e] eqn:E; [|discriminate].
  injection Hb as <-.
  assert (Hc : same_context false s init_transpiler).
  { split; [exact Hd|]. split; [exact Hv|]. discriminate. }
  pose proof (visit_indep_guarded n Hg s init_transpiler Hc) as Hrun.
  rewrite E in Hrun.
  destruct (visit n s) as [v' s'|e'] eqn:E'; [|contradiction].
  destruct Hrun as (-> & (Hd' & Hv' & _) & added & L1 & L2).
  simpl in L2. subst added.
  exists v, s'. split; [reflexivity|]. split; [exact L1|].
  destruct (visit_keeps_depth n _ _ _ E) as [Ed _].
  split; [rewrite Hd', Ed; reflexivity|].
  rewrite Hv'.
  destruct (visit_sv_kept n _ _ _ E) as [K|K]; [rewrite K|exact K];
    reflexivity.
Qed.

Lemma generate_pair (f1 f2 : node) (block1 block2 : list string) :
  guarded f1 = true -> guarded f2 = true ->
  block_of f1 = Some block1 -> block_of f2 = Some block2 ->
  generate (FileAST [f1; f2])
  = Returns (String.concat nl (block1 ++ block2)).
Proof.
  intros G1 G2 H1 H2.
  destruct (visit_guarded_later f1 block1 init_transpiler G1 H1
              eq_refl eq_refl) as (v1 & s1 & E1 & L1 & D1 & V1).
  destruct (visit_guarded_later f2 block2 s1 G2 H2 D1 V1)
    as (v2 & s2 & E2 & L2 & _ & _).
  unfold generate. visit_unfold; cbn [visit_each_].
  rewrite bind_assoc, (bind_ok _ _ _ _ _ E1).
  rewrite bind_assoc, (bind_ok _ _ _ _ _ E2).
  rewrite !bind_ret_l. unfold ret. now rewrite L2, L1.
Qed.

(** C8, amended: take two inputs that the parser reads as the same two
    top-level definitions in the two orders.  When each definition is
    translated on its own without an exception and has no case label
    outside a switch body, the translation of either input is the block
    of its first definition followed by the block of its second, each
    block being the lines of the definition translated on its own:
    swapping the definitions swaps the blocks and changes no line of
    them. *)
Theorem C8_swap_top_level
    (parse : string -> parsed) (c_code c_code' : string)
    (f1 f2 : node) (block1 block2 : list string) :
  parse (remove_preprocessor_lines c_code) = Tree (FileAST [f1; f2]) ->
  parse (remove_preprocessor_lines c_code') = Tree (FileAST [f2; f1]) ->
  guarded f1 = true -> guarded f2 = true ->
  block_of f1 = Some block1 -> block_of f2 = Some block2 ->
  convert_c_to_python parse c_code
  = Returns (String.concat nl (block1 ++ block2)) /\
  convert_c_to_python parse c_code'
  = Returns (String.concat nl (block2 ++ block1)) /\
  generate (FileAST [f1; f2])
  = Returns (String.concat nl (block1 ++ block2)) /\
  generate (FileAST [f2; f1])
  = Returns (String.concat nl (block2 ++ block1)).
Proof.
  intros P12 P21 G1 G2 H1 H2.
  pose proof (generate_pair f1 f2 block1 block2 G1 G2 H1 H2) as E12.
  pose proof (generate_pair f2 f1 block2 block1 G2 G1 H2 H1) as E21.
  unfold convert_c_to_python. rewrite P12, P21. now repeat split.
Qed.

Lemma C8_swap_top_level_witness :
  convert_c_to_python parse_switch_zero switch_zero_source
  = Returns (String.concat nl
               (["def f():"; "    # switch(x) equivalent";
                 "    if x == 1:"; "        a()"]
                ++ ["def h():"; "    return 0"])) /\
  convert_c_to_python parse_switch_zero zero_switch_source
  = Returns (String.concat nl
               (["def h():"; "    return 0"]
                ++ ["def f():"; "    # switch(x) equivalent";
                    "    if x == 1:"; "        a()"])).
Proof.
  destruct (C8_swap_top_level parse_switch_zero
              switch_zero_source zero_switch_source
              switch_def zero_def
              ["def f():"; "    # switch(x) equivalent";
               "    if x == 1:"; "        a()"]
              ["def h():"; "    return 0"])
    as (H12 & H21 & _); try (vm_compute; reflexivity).
  split; [exact H12|exact H21].
Defined.

(** C8 as stated fails when a definition holds a case label outside any
    switch: after [f], whose switch leaves the flag set, the label of [g]
    is emitted with [elif]; before [f] it is emitted with [if].  No pair of
    blocks is swapped by swapping the two definitions. *)
Lemma C8_bare_case_depends_on_order :
  lines (final_state (FileAST [switch_def; bare_case_def]))
  = ["def f():"; "    # switch(x) equivalent"; "    if x == 1:";
     "        a()";
     "def g():"; "    elif None == 2:"; "        b()"] /\
  lines (final_state (FileAST [bare_case_def; switch_def]))
  = ["def g():"; "    if None == 2:"; "        b()";
     "def f():"; "    # switch(x) equivalent"; "    if x == 1:";
     "        a()"] /\
  ~ exists block1 block2 : list string,
      lines (final_state (FileAST [switch_def; bare_case_def]))
      = (block1 ++ block2)%list /\
      lines (final_state (FileAST [bare_case_def; switch_def]))
      = (block2 ++ block1)%list.
Proof.
  split; [vm_compute; reflexivity|]. split; [vm_compute; reflexivity|].
  intros (b1 & b2 & H1 & H2).
  assert (Hin : In "    elif None == 2:" (b1 ++ b2)%list).
  { rewrite <- H1. vm_compute. tauto. }
  assert (Hout : ~ In "    elif None == 2:" (b2 ++ b1)%list).
  { rewrite <- H2. vm_compute. intros H.
    repeat (destruct H as [H|H]; [discriminate H|]). exact H. }
  apply Hout. apply in_app_iff. apply in_app_iff in Hin. tauto.
Qed.

(** ** The preprocessing pass *)

Lemma splitlines_from_line (l cur rest : string) :
  no_break l = true ->
  splitlines_from cur (l ++ rest) = splitlines_from (cur ++ l) rest.
Proof.
  revert cur. induction l as [|c l IH]; intros cur H.
  - now rewrite append_nil_r.
  - cbn [no_break] in H. apply andb_true_iff in H as [Hc Hl].
    apply negb_true_iff in Hc. cbn [append splitlines_from].
    rewrite Hc, (IH _ Hl), append_assoc. reflexivity.
Qed.

Lemma splitlines_from_nl (cur rest : string) :
  splitlines_from cur (nl ++ rest) = cur :: splitlines_from "" rest.
Proof. reflexivity. Qed.

Lemma no_break_app (a b : string) :
  no_break (a ++ b) = no_break a && no_break b.
Proof.
  induction a as [|c a IH]; [reflexivity|].
  cbn [append no_break]. now rewrite IH, andb_assoc.
Qed.

Lemma splitlines_from_no_break (s cur : string) :
  no_break cur = true ->
  Forall (fun l => no_break l = true) (splitlines_from cur s).
Proof.
  remember (String.length s) as k eqn:Hk.
  revert s cur Hk.
  induction k as [k IH] using lt_wf_ind. intros s cur Hk Hcur.
  destruct s as [|c rest]; cbn [splitlines_from].
  - destruct cur; constructor; [exact Hcur|constructor].
  - cbn [String.length] in Hk.
    destruct (is_linebreak c) eqn:Hc.
    + destruct (Ascii.eqb c "013").
      * destruct rest as [|c' rest'].
        -- repeat constructor. exact Hcur.
        -- cbn [String.length] in Hk.
           assert (Hrest : Forall (fun l => no_break l = true)
                             (splitlines_from "" (String c' rest'))).
           { apply (IH (String.length (String c' rest'))); cbn; auto; lia. }
           assert (Hrest' : Forall (fun l => no_break l = true)
                              (splitlines_from "" rest')).
           { apply (IH (String.length rest')); auto; lia. }
           destruct (Ascii.eqb_spec c' "010") as [->|Hne].
           ++ constructor; assumption.
           ++ assert (E : match c' with
                          | "010"%char => cur :: splitlines_from "" rest'
                          | _ => cur :: splitlines_from "" (String c' rest')
                          end = cur :: splitlines_from "" (String c' rest')).
              { destruct c' as [[] [] [] [] [] [] [] []];
                  try reflexivity. now elim Hne. }
              rewrite E. constructor; assumption.
      * constructor; [exact Hcur|].
        apply (IH (String.length rest)); auto; lia.
    + apply (IH (String.length rest)); [lia|reflexivity|].
      rewrite no_break_app, Hcur. cbn [no_break]. now rewrite Hc.
Qed.

Lemma splitlines_no_break (s : string) :
  Forall (fun l => no_break l = true) (splitlines s).
Proof. now apply splitlines_from_no_break. Qed.

Lemma splitlines_join (ls : list string) :
  Forall (fun l => no_break l = true) ls ->
  splitlines (String.concat nl ls) = drop_last_blank ls.
Proof.
  induction ls as [|x ls IH]; intros H; [reflexivity|].
  inversion H as [|? ? Hx Hls]; subst.
  destruct ls as [|y ls].
  - cbn [String.concat drop_last_blank]. unfold splitlines.
    rewrite <- (append_nil_r x) at 1.
    rewrite (splitlines_from_line x "" "" Hx). cbn [append splitlines_from].
    reflexivity.
  - change (String.concat nl (x :: y :: ls))
      with (x ++ nl ++ String.concat nl (y :: ls)).
    unfold splitlines.
    rewrite (splitlines_from_line x "" _ Hx), splitlines_from_nl.
    cbn [append]. fold (splitlines (String.concat nl (y :: ls))).
    rewrite (IH Hls). reflexivity.
Qed.

Lemma lstrip_split (line : string) :
  exists ws, line = ws ++ lstrip line /\ all_space ws = true.
Proof.
  induction line as [|c line (ws & E & H)]; [now exists ""|].
  cbn [lstrip]. destruct (isspace c) eqn:Hc.
  - exists (String c ws). cbn [append all_space]. now rewrite <- E, Hc, H.
  - now exists "".
Qed.

Lemma lstrip_head (line : string) (c : ascii) (rest : string) :
  lstrip line = String c rest -> isspace c = false.
Proof.
  induction line as [|c' line IH]; [discriminate|].
  cbn [lstrip]. destruct (isspace c') eqn:Hc; [exact IH|].
  intros H. injection H as -> _. exact Hc.
Qed.

Lemma lstrip_space (ws rest : string) :
  all_space ws = true -> lstrip (ws ++ rest) = lstrip rest.
Proof.
  induction ws as [|c ws IH]; [reflexivity|].
  cbn [all_space append lstrip]. intros H.
  apply andb_true_iff in H as [Hc Hws]. now rewrite Hc, IH.
Qed.

Lemma rstrip_head (c : ascii) (rest : string) :
  isspace c = false -> exists k, rstrip (String c rest) = String c k.
Proof.
  intros Hc. cbn [rstrip]. rewrite Hc.
  destruct (rstrip rest); eexists; reflexivity.
Qed.

Lemma prefix_hash (c : ascii) (k : string) :
  prefix "#" (String c k) = Ascii.eqb c "#".
Proof.
  cbn [prefix]. destruct (ascii_dec "#" c) as [<-|Hne].
  - now destruct k.
  - symmetry. apply Ascii.eqb_neq. congruence.
Qed.

Lemma is_directive_spec (line : string) :
  is_directive line = true <->
  exists ws text, line = ws ++ "#" ++ text /\ all_space ws = true.
Proof.
  unfold is_directive, strip. split.
  - intros H. destruct (lstrip_split line) as (ws & E & Hws).
    destruct (lstrip line) as [|c rest] eqn:El; [discriminate H|].
    destruct (rstrip_head c rest (lstrip_head _ _ _ El)) as [k Hk].
    rewrite Hk, prefix_hash in H. apply Ascii.eqb_eq in H. subst c.
    now exists ws, rest.
  - intros (ws & text & -> & Hws). rewrite (lstrip_space _ _ Hws).
    cbn [append lstrip]. change (isspace "#") with false. cbv iota.
    destruct (rstrip_head "#" text eq_refl) as [k Hk].
    rewrite Hk. apply prefix_hash.
Qed.

Lemma filter_no_break (f : string -> bool) (ls : list string) :
  Forall (fun l => no_break l = true) ls ->
  Forall (fun l => no_break l = true) (filter f ls).
Proof.
  induction 1 as [|l ls Hl _ IH]; cbn [filter]; [constructor|].
  destruct (f l); [constructor|]; assumption.
Qed.

Lemma remove_directive_line (line rest : string) :
  no_break line = true -> is_directive line = true ->
  remove_preprocessor_lines (line ++ nl ++ rest)
  = remove_preprocessor_lines rest.
Proof.
  intros Hl Hd. unfold remove_preprocessor_lines, splitlines.
  rewrite (splitlines_from_line line "" _ Hl), splitlines_from_nl.
  cbn [append filter]. now rewrite Hd.
Qed.

(** C6, amended: a line, as [str.splitlines] cuts them, is removed exactly
    when its first character that is not whitespace is [#].  The lines of
    the result are the other lines of the input, in their order; they are
    joined by LF whatever boundary ended them in the input, and the
    boundary after the last line is not kept, so an empty last line is
    lost.  A line that starts with [#include <stdio.h>] is removed before
    parsing: the translation is that of the input without the line. *)
Theorem C6_preprocessing
    (parse : string -> parsed) (c_code line tail rest : string) :
  no_break tail = true ->
  (is_directive line = true <->
   exists ws text, line = ws ++ "#" ++ text /\ all_space ws = true) /\
  remove_preprocessor_lines c_code
  = String.concat nl (filter kept (splitlines c_code)) /\
  splitlines (remove_preprocessor_lines c_code)
  = drop_last_blank (filter kept (splitlines c_code)) /\
  remove_preprocessor_lines ("#include <stdio.h>" ++ tail ++ nl ++ rest)
  = remove_preprocessor_lines rest /\
  convert_c_to_python parse ("#include <stdio.h>" ++ tail ++ nl ++ rest)
  = convert_c_to_python parse rest.
Proof.
  intros Htail.
  assert (Hinc :
    remove_preprocessor_lines ("#include <stdio.h>" ++ tail ++ nl ++ rest)
    = remove_preprocessor_lines rest).
  { rewrite <- append_assoc. apply remove_directive_line.
    - rewrite no_break_app, Htail. reflexivity.
    - apply is_directive_spec. exists "", ("include <stdio.h>" ++ tail).
      split; reflexivity. }
  split; [apply is_directive_spec|]. split; [reflexivity|].
  split; [|split; [exact Hinc|]].
  - unfold remove_preprocessor_lines. apply splitlines_join.
    apply filter_no_break, splitlines_no_break.
  - unfold convert_c_to_python. now rewrite Hinc.
Qed.

Lemma C6_preprocessing_witness :
  remove_preprocessor_lines
    ("#include <stdio.h>" ++ "" ++ nl ++ add_source)
  = remove_preprocessor_lines add_source /\
  convert_c_to_python (fun _ => Tree add_ast)
    ("#include <stdio.h>" ++ "" ++ nl ++ add_source)
  = convert_c_to_python (fun _ => Tree add_ast) add_source.
Proof.
  destruct (C6_preprocessing (fun _ => Tree add_ast) "" "" "" add_source
              eq_refl) as (_ & _ & _ & Hremove & Hconvert).
  split; [exact Hremove|exact Hconvert].
Defined.

(** C6 as stated fails on the line boundaries: in a text without any
    directive line, a CR LF between two lines comes out as LF and the LF
    after the last line is dropped. *)
Lemma C6_newlines_not_preserved :
  forallb kept (splitlines crlf_source) = true /\
  remove_preprocessor_lines crlf_source = "int x;" ++ nl ++ "int y;" /\
  remove_preprocessor_lines crlf_source <> crlf_source.
Proof.
  split; [vm_compute; reflexivity|]. split; [vm_compute; reflexivity|].
  vm_compute. discriminate.
Qed.

(** * Part II, continued: properties of the rest of the code *)

(** ** Translation without an exception *)

Lemma succeeds_ret {A} (a : A) : succeeds (ret a).
Proof. intros s. now exists a, s. Qed.

Lemma succeeds_bind {A B} (m : M A) (k : A -> M B) :
  succeeds m -> (forall a, succeeds (k a)) -> succeeds (bind m k).
Proof.
  intros Hm Hk s. destruct (Hm s) as (a & s1 & E).
  destruct (Hk a s1) as (b & s2 & E2). exists b, s2.
  now rewrite (bind_ok _ _ _ _ _ E).
Qed.

Lemma succeeds_bind_ret {A B} (a : A) (k : A -> M B) :
  succeeds (k a) -> succeeds (bind (ret a) k).
Proof. intros H s. apply H. Qed.

Lemma succeeds_append_line text : succeeds (append_line text).
Proof. intros s. eexists _, _. reflexivity. Qed.

Lemma succeeds_append_code code : succeeds (append_code code).
Proof.
  unfold append_code. destruct (truthy code);
    [apply succeeds_append_line|apply succeeds_ret].
Qed.

Lemma succeeds_add_indent d : succeeds (add_indent d).
Proof. intros s. eexists _, _. reflexivity. Qed.

Lemma succeeds_set_switch_var v : succeeds (set_switch_var v).
Proof. intros s. eexists _, _. reflexivity. Qed.

Lemma succeeds_set_case_seen b : succeeds (set_case_seen b).
Proof. intros s. eexists _, _. reflexivity. Qed.

Lemma succeeds_get_switch_var : succeeds get_switch_var.
Proof. intros s. eexists _, _. reflexivity. Qed.

Lemma succeeds_get_case_seen : succeeds get_case_seen.
Proof. intros s. eexists _, _. reflexivity. Qed.

Lemma succeeds_simple (n : node) : simple n = true -> succeeds (visit n).
Proof. intros H s. eexists _, _. now apply visit_simple. Qed.

Lemma succeeds_visit_each_ (l : list node) :
  (forall m, In m l -> succeeds (visit m)) -> succeeds (visit_each_ visit l).
Proof.
  induction l as [|n l IH]; cbn [visit_each_]; intros H;
    [apply succeeds_ret|].
  apply succeeds_bind; [apply H; now left|intro].
  apply IH. intros; apply H; now right.
Qed.

Lemma succeeds_visit_stmts (l : list node) :
  (forall m, In m l -> succeeds (visit m)) -> succeeds (visit_stmts visit l).
Proof.
  induction l as [|n l IH]; cbn [visit_stmts]; intros H;
    [apply succeeds_ret|].
  apply succeeds_bind; [apply H; now left|intro].
  apply succeeds_bind; [apply succeeds_append_code|intro].
  apply IH. intros; apply H; now right.
Qed.

Lemma named_declared (params : list node) :
  forallb is_named params = true ->
  exists names, map declared_name params = map Some names.
Proof.
  induction params as [|p ps IH]; cbn [forallb]; intros H.
  - now exists [].
  - apply andb_true_iff in H as [Hp Hps]. destruct (IH Hps) as [names E].
    unfold is_named in Hp. destruct (declared_name p) as [nm|] eqn:Ep;
      [|discriminate Hp].
    exists (nm :: names). cbn [map]. now rewrite Ep, E.
Qed.

Lemma succeeds_get_func_args (args : option node) :
  named_params args = true -> succeeds (_get_func_args args).
Proof.
  destruct args as [[]|]; cbn [named_params]; intros H; try discriminate H.
  - destruct (named_declared _ H) as [names E]. intros s.
    eexists _, _. apply (get_func_args_declared _ _ s E).
  - apply succeeds_ret.
Qed.

Ltac supported_hyps :=
  repeat match goal with
         | H : _ && _ = true |- _ => apply andb_true_iff in H as [? ?]
         end.

Ltac succeeds_step IH :=
  first
    [ match goal with H : In _ [] |- _ => destruct H end
    | match goal with
      | H : simple ?m = true |- succeeds (visit ?m) =>
          exact (succeeds_simple m H)
      | |- succeeds (visit ?m) =>
          apply IH;
          [ eauto using child; fail
          | first [ assumption
                  | match goal with
                    | H : forallb supported ?l = true, Hin : In m ?l |- _ =>
                        exact (proj1 (forallb_forall supported l) H m Hin)
                    end ] ]
      end
    | match goal with
      | |- succeeds (bind (ret _) _) => apply succeeds_bind_ret
      | |- succeeds (bind _ _) => apply succeeds_bind; [|intro]
      | |- succeeds (ret _) => apply succeeds_ret
      end
    | apply succeeds_append_line
    | apply succeeds_add_indent
    | apply succeeds_set_switch_var
    | apply succeeds_set_case_seen
    | apply succeeds_get_switch_var
    | apply succeeds_get_case_seen
    | apply succeeds_visit_stmts; intros
    | apply succeeds_visit_each_; intros
    | apply succeeds_get_func_args; assumption
    | match goal with
      | |- succeeds (match ?x with _ => _ end) =>
          destruct x; simpl in *; try discriminate; supported_hyps
      end ].

Lemma visit_supported (n : node) : supported n = true -> succeeds (visit n).
Proof.
  induction n as [n IH] using node_child_ind. intros Hn.
  destruct (simple n) eqn:Hs; [now apply succeeds_simple|].
  destruct n; cbn [supported] in Hn; try discriminate Hn;
    try (rewrite Hn in Hs; discriminate Hs).
  - (* FileAST *) visit_unfold. repeat succeeds_step IH.
  - (* FuncDef *)
    repeat match type of Hn with
           | match ?x with _ => _ end = true =>
               destruct x; try discriminate Hn
           end.
    supported_hyps. visit_unfold. cbn [type_args].
    repeat succeeds_step IH.
  - (* Compound *) visit_unfold. repeat succeeds_step IH.
  - (* If *) supported_hyps. visit_unfold. repeat succeeds_step IH.
  - (* While *) supported_hyps. visit_unfold. repeat succeeds_step IH.
  - (* For *)
    repeat match type of Hn with
           | match ?x with _ => _ end = true =>
               destruct x; try discriminate Hn
           end.
    supported_hyps. visit_unfold. repeat succeeds_step IH.
  - (* Switch *) supported_hyps. visit_unfold. repeat succeeds_step IH.
  - (* Case *) supported_hyps. visit_unfold. repeat succeeds_step IH.
  - (* Default *) visit_unfold. repeat succeeds_step IH.
Qed.

(** ** Expressions *)

(** X1: the visit of an expression (identifier, constant, binary and unary
    operation, assignment, array reference, call, over expressions), of a
    declaration or a return over expressions, and of a node without a rule
    never raises, returns the text [render] gives and leaves the emission
    state as it was: it appends no line and changes neither the depth nor
    the switch context. *)
Theorem X1_expressions_only_render (n : node) (s : CtoPythonTranspiler) :
  simple n = true -> visit n s = Ok (PStr (render n)) s.
Proof. intros H. now apply visit_simple. Qed.

Lemma X1_expressions_only_render_witness :
  visit (Assignment "=" (ArrayRef (ID "a") (ID "i"))
           (BinaryOp "*" (call "f" [ID "x"; int_const "2"])
              (UnaryOp "-" (ID "y"))))
    init_transpiler
  = Ok (PStr "a[i] = f(x, 2) * -y") init_transpiler.
Proof.
  exact (X1_expressions_only_render
           (Assignment "=" (ArrayRef (ID "a") (ID "i"))
              (BinaryOp "*" (call "f" [ID "x"; int_const "2"])
                 (UnaryOp "-" (ID "y"))))
           init_transpiler eq_refl).
Defined.

(** X2: a call is rendered as its callee, an opening parenthesis, its
    arguments joined by a comma and a space, and a closing parenthesis; the
    callee is replaced by [print] exactly when its text is [printf].  A
    call without an argument list and a call with an empty one are both
    rendered with an empty pair of parentheses. *)
Theorem X2_call_printf_becomes_print
    (name : node) (exprs : list node) (s : CtoPythonTranspiler) :
  simple name = true -> forallb simple exprs = true ->
  let callee := if String.eqb (render name) "printf" then "print"
                else render name in
  visit (FuncCall name (Some (ExprList exprs))) s
  = Ok (PStr (callee ++ "(" ++ String.concat ", " (map render exprs) ++ ")"))
      s /\
  visit (FuncCall name None) s = Ok (PStr (callee ++ "()")) s /\
  visit (FuncCall name (Some (ExprList []))) s = visit (FuncCall name None) s.
Proof.
  intros Hn He callee. subst callee.
  rewrite (visit_simple (FuncCall name (Some (ExprList exprs)))),
          (visit_simple (FuncCall name None)),
          (visit_simple (FuncCall name (Some (ExprList []))));
    try (cbn [simple forallb]; rewrite Hn, ?He; reflexivity).
  cbn [render map String.concat].
  destruct (String.eqb (render name) "printf"); repeat split.
Qed.

Lemma X2_call_printf_becomes_print_witness :
  visit (call "printf" [str_const "%d"; ID "x"]) init_transpiler
  = Ok (PStr ("print(" ++ dq ++ "%d" ++ dq ++ ", x)")) init_transpiler /\
  visit (FuncCall (ID "puts") None) init_transpiler
  = Ok (PStr "puts()") init_transpiler.
Proof.
  split.
  - exact (proj1 (X2_call_printf_becomes_print (ID "printf")
                    [str_const "%d"; ID "x"] init_transpiler
                    eq_refl eq_refl)).
  - exact (proj1 (proj2 (X2_call_printf_becomes_print (ID "puts")
                           [] init_transpiler eq_refl eq_refl))).
Defined.

(** ** Inputs on which nothing is raised *)

(** X3: on a [supported] tree, one in which every expression is [simple],
    every for-loop has an assignment as initializer and a binary operation
    as condition and every function definition has only parameters with a
    name, the visit returns from every state, so [convert_c_to_python]
    returns text whenever the parser fails or gives such a tree. *)
Theorem X3_supported_tree_returns_text
    (parse : string -> parsed) (c_code : string) (n : node)
    (s : CtoPythonTranspiler) :
  supported n = true ->
  (forall ast, parse (remove_preprocessor_lines c_code) = Tree ast ->
               supported ast = true) ->
  (exists v s', visit n s = Ok v s') /\
  (exists text, generate n = Returns text) /\
  (exists text, convert_c_to_python parse c_code = Returns text).
Proof.
  intros Hn Hparse. split; [apply (visit_supported n Hn)|]. split.
  - unfold generate.
    destruct (visit_supported n Hn init_transpiler) as (v & s' & E).
    rewrite E. now eexists.
  - unfold convert_c_to_python.
    destruct (parse (remove_preprocessor_lines c_code)) as [ast|e] eqn:P;
      [|now eexists].
    unfold generate.
    destruct (visit_supported ast (Hparse ast eq_refl) init_transpiler)
      as (v & s' & E).
    rewrite E. now eexists.
Qed.

Lemma X3_supported_tree_returns_text_witness :
  (exists v s', visit deep_nest init_transpiler = Ok v s') /\
  (exists text, generate deep_nest = Returns text) /\
  (exists text,
      convert_c_to_python (fun _ => Tree add_ast) add_source = Returns text).
Proof.
  apply (X3_supported_tree_returns_text (fun _ => Tree add_ast) add_source
           deep_nest init_transpiler).
  - vm_compute. reflexivity.
  - intros ast H. injection H as <-. vm_compute. reflexivity.
Defined.

(** ** Top-level declarations *)

Lemma visit_each_app (pre post : list node) (s : CtoPythonTranspiler) :
  visit_each_ visit (pre ++ post) s
  = (visit_each_ visit pre ;; visit_each_ visit post) s.
Proof.
  revert s. induction pre as [|n pre IH]; intros s; [reflexivity|].
  cbn [app visit_each_]. rewrite bind_assoc.
  apply bind_ext. intros _ s1. apply IH.
Qed.

Lemma visit_each_simple (ext : list node) (s : CtoPythonTranspiler) :
  forallb simple ext = true -> visit_each_ visit ext s = Ok tt s.
Proof.
  induction ext as [|n l IH]; cbn [forallb visit_each_]; intros H;
    [reflexivity|].
  apply andb_true_iff in H as [Hn Hl].
  now rewrite (bind_ok _ _ _ _ _ (visit_simple n Hn s)), IH.
Qed.

(** X4: [visit_FileAST] discards what the visit of a top-level node
    returns.  A top-level node that is not a function definition (a global
    declaration, a prototype, a typedef) leaves no trace in the output: the
    translation is that of the file without it, and a file of such nodes
    only is translated to the empty text. *)
Theorem X4_top_level_declarations_dropped
    (n : node) (pre post ext : list node) :
  simple n = true -> forallb simple ext = true ->
  generate (FileAST (pre ++ n :: post)) = generate (FileAST (pre ++ post)) /\
  generate (FileAST ext) = Returns "".
Proof.
  intros Hn Hext. split.
  - unfold generate. visit_unfold.
    assert (E : forall s,
      visit_each_ visit (pre ++ n :: post) s
      = visit_each_ visit (pre ++ post) s).
    { intros s. rewrite !visit_each_app. apply bind_ext. intros _ s1.
      cbn [visit_each_].
      now rewrite (bind_ok _ _ _ _ _ (visit_simple n Hn s1)). }
    now rewrite (bind_cong_l _ _ _ _ (E init_transpiler)).
  - unfold generate. visit_unfold.
    now rewrite (bind_ok _ _ _ _ _ (visit_each_simple ext _ Hext)).
Qed.

Lemma X4_top_level_declarations_dropped_witness :
  generate (FileAST ([zero_def] ++ x_is_5 :: [switch_def]))
  = generate (FileAST ([zero_def] ++ [switch_def])) /\
  generate (FileAST [x_is_5; pointer_decl]) = Returns "".
Proof.
  exact (X4_top_level_declarations_dropped x_is_5 [zero_def] [switch_def]
           [x_is_5; pointer_decl] eq_refl eq_refl).
Defined.

(** ** Bodies without braces *)

Lemma visit_discarded_simple {A} (body : node) (k : M A) s :
  simple body = true ->
  (visit body ;; k) s = (visit (Compound None) ;; k) s.
Proof.
  intros H. rewrite (bind_ok _ _ _ _ _ (visit_simple body H s)).
  reflexivity.
Qed.

(** X5: [visit_If], [visit_While] and [visit_For] discard what the visit
    of the branch or body returns: a branch or body that is one statement
    without braces (an expression statement, a declaration, a return, a
    break) is translated like an empty block, so only the header line is
    appended and the statement is lost. *)
Theorem X5_unbraced_body_dropped
    (body cond iftrue : node) (iffalse init fcond next : option node)
    (s : CtoPythonTranspiler) :
  simple body = true ->
  visit (If cond body iffalse) s = visit (If cond (Compound None) iffalse) s /\
  visit (If cond iftrue (Some body)) s
  = visit (If cond iftrue (Some (Compound None))) s /\
  visit (While cond body) s = visit (While cond (Compound None)) s /\
  visit (For init fcond next body) s
  = visit (For init fcond next (Compound None)) s /\
  (simple cond = true ->
   visit (While cond body) s
   = Ok PNone (emit [indent s ++ "while " ++ render cond ++ ":"] s)).
Proof.
  intros Hb. repeat split.
  - visit_unfold. apply bind_ext. intros c s1.
    apply bind_ext. intros _ s2. apply bind_ext. intros _ s3.
    now rewrite (visit_discarded_simple body _ s3 Hb).
  - visit_unfold. apply bind_ext. intros c s1.
    apply bind_ext. intros _ s2. apply bind_ext. intros _ s3.
    apply bind_ext. intros _ s4. apply bind_ext. intros _ s5.
    apply bind_ext. intros _ s6. apply bind_ext. intros _ s7.
    now rewrite (visit_discarded_simple body _ s7 Hb).
  - visit_unfold. apply bind_ext. intros c s1.
    apply bind_ext. intros _ s2. apply bind_ext. intros _ s3.
    now rewrite (visit_discarded_simple body _ s3 Hb).
  - visit_unfold. destruct init as [[]|]; try reflexivity.
    apply bind_ext. intros v1 s1. apply bind_ext. intros v2 s2.
    destruct fcond as [[]|]; try reflexivity.
    apply bind_ext. intros v3 s3.
    apply bind_ext. intros _ s4. apply bind_ext. intros _ s5.
    now rewrite (visit_discarded_simple body _ s5 Hb).
  - intros Hc.
    assert (Hp : plain (While cond body) = true).
    { cbn [plain]. now rewrite Hc, (simple_plain body Hb). }
    rewrite (visit_plain _ Hp s). cbn [own_lines].
    rewrite (own_lines_simple _ body Hb). reflexivity.
Qed.

Lemma X5_unbraced_body_dropped_witness :
  visit (If (ID "x") (Assignment "=" (ID "y") (int_const "1")) None)
    init_transpiler
  = visit (If (ID "x") (Compound None) None) init_transpiler /\
  visit (While (ID "x") (Assignment "=" (ID "y") (int_const "1")))
    init_transpiler
  = Ok PNone (emit ["while x:"] init_transpiler).
Proof.
  destruct (X5_unbraced_body_dropped
              (Assignment "=" (ID "y") (int_const "1")) (ID "x")
              (Compound None) None None None None init_transpiler eq_refl)
    as (Hif & _ & _ & _ & Hwhile).
  split; [exact Hif|exact (Hwhile eq_refl)].
Defined.

(** ** Exceptions of the parameter list and of the for-loop *)

Lemma param_names_fields (params : list node) s :
  forallb has_name_field params = true ->
  param_names params s
  = Ok (map (fun p => of_option (declared_name p)) params) s.
Proof.
  induction params as [|p ps IH]; cbn [forallb]; intros H; [reflexivity|].
  apply andb_true_iff in H as [Hp Hps]. cbn [param_names map].
  assert (E : param_name p s = Ok (of_option (declared_name p)) s).
  { destruct p; try discriminate Hp; reflexivity. }
  now rewrite (bind_ok _ _ _ _ _ E), (bind_ok _ _ _ _ _ (IH Hps)).
Qed.

Lemma param_names_no_field (params : list node) s :
  forallb has_name_field params = false ->
  param_names params s = Raise AttributeError.
Proof.
  induction params as [|p ps IH]; cbn [forallb]; intros H;
    [discriminate H|].
  cbn [param_names]. destruct (has_name_field p) eqn:Hp.
  - assert (E : param_name p s = Ok (of_option (declared_name p)) s).
    { destruct p; try discriminate Hp; reflexivity. }
    rewrite (bind_ok _ _ _ _ _ E). unfold bind. now rewrite (IH H).
  - assert (E : param_name p s = Raise AttributeError).
    { destruct p; try discriminate Hp; reflexivity. }
    unfold bind. now rewrite E.
Qed.

Lemma all_str_unnamed (params : list node) :
  forallb is_named params = false ->
  all_str (map (fun p => of_option (declared_name p)) params) = None.
Proof.
  induction params as [|p ps IH]; cbn [forallb]; intros H;
    [discriminate H|].
  cbn [map all_str]. unfold is_named in H.
  destruct (declared_name p); [|reflexivity].
  cbn [of_option]. now rewrite (IH H).
Qed.

(** X6: what [_get_func_args] does with a parameter list is decided by
    its parameters alone.  If one of them has no field [name] (the [...]
    of a variadic function), [AttributeError] is raised; otherwise, if one
    of them has no name (a parameter declared by its type only, as the
    [void] of [f(void)]), [join] raises [TypeError]; otherwise the names
    are joined.  The exception of the first two cases is raised by the
    visit of the function definition, whatever its body. *)
Theorem X6_parameter_list_outcome
    (params : list node) (fname : option string) (rtype body : node)
    (dinit : option node) (s : CtoPythonTranspiler) :
  let def := FuncDef (Decl fname (FuncDecl (Some (ParamList params)) rtype)
                        dinit) body in
  (forallb has_name_field params = false ->
   _get_func_args (Some (ParamList params)) s = Raise AttributeError /\
   visit def s = Raise AttributeError) /\
  (forallb has_name_field params = true ->
   forallb is_named params = false ->
   _get_func_args (Some (ParamList params)) s = Raise TypeError /\
   visit def s = Raise TypeError) /\
  (forallb is_named params = true ->
   exists names,
     map declared_name params = map Some names /\
     _get_func_args (Some (ParamList params)) s
     = Ok (String.concat ", " names) s).
Proof.
  intros def.
  assert (Hdef : forall e,
    _get_func_args (Some (ParamList params)) s = Raise e ->
    visit def s = Raise e).
  { intros e E. subst def. visit_unfold. cbn [type_args].
    rewrite bind_ret_l. unfold bind. now rewrite E. }
  split; [|split].
  - intros H.
    assert (E : _get_func_args (Some (ParamList params)) s
                = Raise AttributeError).
    { cbn [_get_func_args]. unfold bind.
      now rewrite (param_names_no_field _ s H). }
    split; [exact E|now apply Hdef].
  - intros Hf Hn.
    assert (E : _get_func_args (Some (ParamList params)) s = Raise TypeError).
    { cbn [_get_func_args].
      rewrite (bind_ok _ _ _ _ _ (param_names_fields _ s Hf)).
      unfold join. now rewrite (all_str_unnamed _ Hn). }
    split; [exact E|now apply Hdef].
  - intros Hn. destruct (named_declared _ Hn) as [names E].
    exists names. split; [exact E|apply (get_func_args_declared _ _ s E)].
Qed.

Lemma X6_parameter_list_outcome_witness :
  visit main_void init_transpiler = Raise TypeError /\
  visit (FuncDef
           (Decl (Some "log")
              (FuncDecl
                 (Some (ParamList
                          [Decl (Some "fmt") (int_type (Some "fmt")) None;
                           EllipsisParam]))
                 (int_type (Some "log")))
              None)
           (Compound None))
    init_transpiler
  = Raise AttributeError.
Proof.
  split.
  - exact (proj2 (proj1 (proj2
             (X6_parameter_list_outcome
                [Typename None (TypeDecl None (IdentifierType ["void"]))]
                (Some "main") (int_type (Some "main"))
                (Compound (Some [Return (Some (int_const "0"))]))
                None init_transpiler)) eq_refl eq_refl)).
  - exact (proj2 (proj1
             (X6_parameter_list_outcome
                [Decl (Some "fmt") (int_type (Some "fmt")) None;
                 EllipsisParam]
                (Some "log") (int_type (Some "log")) (Compound None)
                None init_transpiler) eq_refl)).
Defined.

(** X7: [visit_For] raises [AttributeError] for every for-loop whose
    initializer is not an assignment expression (none, a declaration, a
    comma expression, a call, an increment), whatever its condition and
    body; and, when the initializer is an assignment of expressions, for
    every for-loop whose condition is not a binary operation (none, a
    name, a call, a negation). *)
Theorem X7_for_shapes_that_raise
    (init cond next : option node) (stmt : node) (op : string)
    (lvalue rvalue : node) (s : CtoPythonTranspiler) :
  (is_assignment init = false ->
   visit (For init cond next stmt) s = Raise AttributeError) /\
  (simple lvalue = true -> simple rvalue = true ->
   is_binary_op cond = false ->
   visit (For (Some (Assignment op lvalue rvalue)) cond next stmt) s
   = Raise AttributeError).
Proof.
  split.
  - intros H. visit_unfold.
    destruct init as [[]|]; try discriminate H; reflexivity.
  - intros Hl Hr H. visit_unfold.
    rewrite (bind_ok _ _ _ _ _ (visit_simple lvalue Hl s)).
    rewrite (bind_ok _ _ _ _ _ (visit_simple rvalue Hr s)).
    destruct cond as [[]|]; try discriminate H; reflexivity.
Qed.

Lemma X7_for_shapes_that_raise_witness :
  visit c99_loop init_transpiler = Raise AttributeError /\
  visit (For (Some (Assignment "=" (ID "p") (ID "head"))) (Some (ID "p"))
           None (Compound None))
    init_transpiler
  = Raise AttributeError.
Proof.
  split.
  - exact (proj1 (X7_for_shapes_that_raise
                    (Some (Other DeclList
                             [Decl (Some "i") (int_type (Some "i"))
                                (Some (int_const "0"))]))
                    (Some (BinaryOp "<" (ID "i") (ID "n")))
                    (Some (UnaryOp "p++" (ID "i"))) (Compound None)
                    "=" (ID "i") (ID "i") init_transpiler) eq_refl).
  - exact (proj2 (X7_for_shapes_that_raise
                    None (Some (ID "p")) None (Compound None)
                    "=" (ID "p") (ID "head") init_transpiler)
             eq_refl eq_refl eq_refl).
Defined.

(** ** Declarations *)

(** X8: [visit_Decl] reads the initializer of a scalar declaration only.
    An array declaration is rendered [<name> = [None] * <size>] whatever
    its initializer, so the elements of an initializer list are lost; a
    declaration that is neither a scalar nor an array (a pointer, a
    prototype, a structure) is rendered as the empty text whatever its
    initializer. *)
Theorem X8_initializer_read_for_scalars_only
    (name : option string) (type ty size : node) (init init' : option node)
    (s : CtoPythonTranspiler) :
  (is_type_decl type = false ->
   visit (Decl name type init) s = visit (Decl name type init') s) /\
  (is_type_decl type = false -> is_array_decl type = false ->
   visit (Decl name type init) s = Ok (PStr "") s) /\
  (simple size = true ->
   visit (Decl name (ArrayDecl ty (Some size)) init) s
   = Ok (PStr (fmt (of_option name) ++ " = [None] * " ++ render size)) s).
Proof.
  split; [|split].
  - intros H. destruct type; try discriminate H; reflexivity.
  - intros H1 H2. destruct type; try discriminate H1; try discriminate H2;
      reflexivity.
  - intros H. visit_unfold.
    now rewrite (bind_ok _ _ _ _ _ (visit_simple size H s)).
Qed.

Lemma X8_initializer_read_for_scalars_only_witness :
  visit array_123 init_transpiler
  = Ok (PStr "a = [None] * 3") init_transpiler.
Proof.
  exact (proj2 (proj2
           (X8_initializer_read_for_scalars_only (Some "a")
              (int_type None) (int_type (Some "a")) (int_const "3")
              (Some (Other InitList
                       [int_const "1"; int_const "2"; int_const "3"]))
              None init_transpiler)) eq_refl).
Defined.

(** ** What a visit depends on *)

(** X9: a visit never reads the lines appended before it.  From two states
    with the same depth, discriminant and flag, whatever their lines, the
    visit of a node returns the same value, appends the same lines and
    ends in the same depth, discriminant and flag, or raises the same
    exception. *)
Theorem X9_visit_ignores_earlier_lines
    (n : node) (s1 s2 : CtoPythonTranspiler) :
  indent_level s1 = indent_level s2 ->
  switch_var s1 = switch_var s2 ->
  case_seen s1 = case_seen s2 ->
  match visit n s1, visit n s2 with
  | Ok v1 t1, Ok v2 t2 =>
      v1 = v2 /\
      indent_level t1 = indent_level t2 /\
      switch_var t1 = switch_var t2 /\
      case_seen t1 = case_seen t2 /\
      exists added,
        lines t1 = (lines s1 ++ added)%list /\
        lines t2 = (lines s2 ++ added)%list
  | Raise e1, Raise e2 => e1 = e2
  | _, _ => False
  end.
Proof.
  intros Hd Hv Hc.
  assert (H : same_context true s1 s2) by (now split; [|split]).
  pose proof (visit_indep_strict n s1 s2 H) as R. unfold same_run in R.
  destruct (visit n s1) as [v1 t1|e1], (visit n s2) as [v2 t2|e2];
    try exact R.
  destruct R as (Ev & (Ed & Es & Ec) & added & L1 & L2).
  repeat split; auto. now exists added.
Qed.

Lemma X9_visit_ignores_earlier_lines_witness :
  match visit one_other_switch init_transpiler,
        visit one_other_switch (emit ["import sys"] init_transpiler) with
  | Ok v1 t1, Ok v2 t2 =>
      v1 = v2 /\
      indent_level t1 = indent_level t2 /\
      switch_var t1 = switch_var t2 /\
      case_seen t1 = case_seen t2 /\
      exists added,
        lines t1 = (lines init_transpiler ++ added)%list /\
        lines t2
        = (lines (emit ["import sys"] init_transpiler) ++ added)%list
  | Raise e1, Raise e2 => e1 = e2
  | _, _ => False
  end.
Proof.
  exact (X9_visit_ignores_earlier_lines one_other_switch init_transpiler
           (emit ["import sys"] init_transpiler) eq_refl eq_refl eq_refl).
Defined.

(** X10: the discriminant a visit that returns leaves behind is the one it
    found or [None]; so a visit started without a discriminant ends
    without one, and every top-level definition of a file is visited
    without a discriminant. *)
Theorem X10_discriminant_cleared_or_kept
    (n : node) (s s' : CtoPythonTranspiler) (v : pyval) :
  visit n s = Ok v s' ->
  (switch_var s' = switch_var s \/ switch_var s' = PNone) /\
  (switch_var s = PNone -> switch_var s' = PNone).
Proof.
  intros H. pose proof (visit_sv_kept n s v s' H) as K.
  split; [exact K|]. intros E. destruct K as [K|K]; congruence.
Qed.

Lemma X10_discriminant_cleared_or_kept_witness :
  (switch_var (final_state nested_case_switch) = switch_var init_transpiler
   \/ switch_var (final_state nested_case_switch) = PNone) /\
  (switch_var init_transpiler = PNone ->
   switch_var (final_state nested_case_switch) = PNone).
Proof.
  apply (X10_discriminant_cleared_or_kept nested_case_switch
           init_transpiler (final_state nested_case_switch) PNone).
  vm_compute. reflexivity.
Defined.

(** ** Lines that are not empty *)

Lemma nb_pure {A} (m : M A) : pure_m m -> adds_nonblank m.
Proof.
  intros Hm s a s' H. apply Hm in H. subst. exists [].
  now rewrite app_nil_r.
Qed.

Lemma nb_bind {A B} (m : M A) (k : A -> M B) :
  adds_nonblank m -> (forall a, adds_nonblank (k a)) ->
  adds_nonblank (bind m k).
Proof.
  intros Hm Hk s b s' H. unfold bind in H.
  destruct (m s) as [a s1|e] eqn:E; [|discriminate].
  destruct (Hm _ _ _ E) as (a1 & L1 & F1).
  destruct (Hk _ _ _ _ H) as (a2 & L2 & F2).
  exists (a1 ++ a2)%list. split.
  - now rewrite L2, L1, app_assoc.
  - apply Forall_app. now split.
Qed.

Lemma append_not_empty (p text : string) : text <> "" -> p ++ text <> "".
Proof. destruct p; [trivial|discriminate]. Qed.

Lemma nb_append_line text : text <> "" -> adds_nonblank (append_line text).
Proof.
  intros Ht s a s' H. inversion H; subst; clear H.
  eexists. split; [reflexivity|].
  constructor; [|constructor]. now apply append_not_empty.
Qed.

Lemma nb_append_code code : adds_nonblank (append_code code).
Proof.
  unfold append_code. destruct code as [|[|c text]]; cbn [truthy].
  - apply nb_pure, pure_ret.
  - apply nb_pure, pure_ret.
  - apply nb_append_line. discriminate.
Qed.

Lemma nb_state_only {A} (m : M A) :
  (forall s a s', m s = Ok a s' -> lines s' = lines s) -> adds_nonblank m.
Proof.
  intros Hm s a s' H. exists []. rewrite app_nil_r. split; [|constructor].
  eapply Hm, H.
Qed.

Lemma nb_add_indent d : adds_nonblank (add_indent d).
Proof. apply nb_state_only. intros s a s' H. now inversion H. Qed.

Lemma nb_set_switch_var v : adds_nonblank (set_switch_var v).
Proof. apply nb_state_only. intros s a s' H. now inversion H. Qed.

Lemma nb_set_case_seen b : adds_nonblank (set_case_seen b).
Proof. apply nb_state_only. intros s a s' H. now inversion H. Qed.

Lemma nb_get_switch_var : adds_nonblank get_switch_var.
Proof. apply nb_state_only. intros s a s' H. now inversion H. Qed.

Lemma nb_get_case_seen : adds_nonblank get_case_seen.
Proof. apply nb_state_only. intros s a s' H. now inversion H. Qed.

Lemma nb_visit_each_ (l : list node) :
  (forall m, In m l -> adds_nonblank (visit m)) ->
  adds_nonblank (visit_each_ visit l).
Proof.
  induction l as [|n l IH]; cbn [visit_each_]; intros H;
    [apply nb_pure, pure_ret|].
  apply nb_bind; [apply H; now left|intro].
  apply IH. intros; apply H; now right.
Qed.

Lemma nb_visit_stmts (l : list node) :
  (forall m, In m l -> adds_nonblank (visit m)) ->
  adds_nonblank (visit_stmts visit l).
Proof.
  induction l as [|n l IH]; cbn [visit_stmts]; intros H;
    [apply nb_pure, pure_ret|].
  apply nb_bind; [apply H; now left|intro].
  apply nb_bind; [apply nb_append_code|intro].
  apply IH. intros; apply H; now right.
Qed.

Lemma nb_visit_list (l : list node) :
  (forall m, In m l -> adds_nonblank (visit m)) ->
  adds_nonblank (visit_list visit l).
Proof.
  induction l as [|n l IH]; cbn [visit_list]; intros H;
    [apply nb_pure, pure_ret|].
  apply nb_bind; [apply H; now left|intro].
  apply nb_bind; [|intro; apply nb_pure, pure_ret].
  apply IH. intros; apply H; now right.
Qed.

Ltac nb_step IH :=
  first
    [ match goal with H : In _ [] |- _ => destruct H end
    | match goal with
      | |- adds_nonblank (bind _ _) => apply nb_bind; [|intro]
      | |- adds_nonblank (append_line _) =>
          apply nb_append_line;
          repeat match goal with
                 | |- context [if ?b then _ else _] => destruct b
                 end;
          discriminate
      | |- adds_nonblank (visit _) => apply IH; eauto using child; fail
      end
    | apply nb_add_indent
    | apply nb_set_switch_var
    | apply nb_set_case_seen
    | apply nb_get_switch_var
    | apply nb_get_case_seen
    | apply nb_visit_stmts; intros
    | apply nb_visit_each_; intros
    | apply nb_visit_list; intros
    | apply nb_pure;
      first [ apply pure_ret | apply pure_raise | apply pure_join
            | apply pure_get_func_args | apply pure_type_args
            | apply pure_generic_visit ]
    | match goal with
      | |- adds_nonblank (if ?b then _ else _) => destruct b
      | |- adds_nonblank (match ?x with _ => _ end) => destruct x
      end ].

Lemma visit_adds_nonblank (n : node) : adds_nonblank (visit n).
Proof.
  induction n as [n IH] using node_child_ind.
  destruct n; visit_unfold; repeat nb_step IH.
Qed.

Lemma drop_last_blank_nonblank (ls : list string) :
  Forall (fun line => line <> "") ls -> drop_last_blank ls = ls.
Proof.
  induction 1 as [|l ls Hl Hls IH]; [reflexivity|].
  destruct ls as [|l' ls'].
  - cbn [drop_last_blank]. destruct l; [now elim Hl|reflexivity].
  - change (drop_last_blank (l :: l' :: ls'))
      with (l :: drop_last_blank (l' :: ls')).
    now rewrite IH.
Qed.

(** X11: every line the generator appends is not empty: a header carries
    its keyword and the text a statement returns is appended only when it
    is not empty.  So, when no appended line holds a line boundary, cutting
    the text [generate] returns into lines gives back the appended lines,
    one for one: no line is lost or split by the join. *)
Theorem X11_no_empty_line
    (n : node) (s s' : CtoPythonTranspiler) (v : pyval) (text : string) :
  visit n s = Ok v s' ->
  (exists added,
      lines s' = (lines s ++ added)%list /\
      Forall (fun line => line <> "") added) /\
  (generate n = Returns text ->
   Forall (fun line => line <> "") (lines (final_state n)) /\
   (Forall (fun line => no_break line = true) (lines (final_state n)) ->
    splitlines text = lines (final_state n))).
Proof.
  intros H. split; [apply (visit_adds_nonblank n s v s' H)|].
  unfold generate, final_state. intros G.
  destruct (visit n init_transpiler) as [v0 t|e] eqn:E; [|discriminate G].
  injection G as <-.
  destruct (visit_adds_nonblank n _ _ _ E) as (added & L & F).
  cbn [lines init_transpiler app] in L. rewrite L.
  split; [exact F|]. intros Hb.
  rewrite (splitlines_join _ Hb). now apply drop_last_blank_nonblank.
Qed.

Lemma X11_no_empty_line_witness :
  (exists added,
      lines (final_state deep_nest)
      = (lines init_transpiler ++ added)%list /\
      Forall (fun line => line <> "") added) /\
  (generate deep_nest
   = Returns (String.concat nl (lines (final_state deep_nest))) ->
   Forall (fun line => line <> "") (lines (final_state deep_nest)) /\
   (Forall (fun line => no_break line = true)
      (lines (final_state deep_nest)) ->
    splitlines (String.concat nl (lines (final_state deep_nest)))
    = lines (final_state deep_nest))).
Proof.
  apply (X11_no_empty_line deep_nest init_transpiler
           (final_state deep_nest) PNone).
  vm_compute. reflexivity.
Defined.

(** ** The same visit one level deeper *)

Lemma indent_at_succ (d : Z) :
  (0 <= d)%Z -> indent_at (d + 1) = "    " ++ indent_at d.
Proof.
  intros H. unfold indent_at.
  now replace (Z.to_nat (d + 1)) with (S (Z.to_nat d)) by lia.
Qed.

Lemma shifted_refl {A} b s1 s2 (a : A) :
  one_deeper b s1 s2 -> shifted_run b s1 s2 (Ok a s1) (Ok a s2).
Proof.
  intros H. split; [reflexivity|]. split; [exact H|].
  exists []. cbn [map]. now rewrite !app_nil_r.
Qed.

Lemma shifts_stateless {A} b (m : M A) : stateless m -> shifts b m.
Proof.
  intros [[a Ha]|[e He]] s1 s2 H.
  - rewrite !Ha. now apply shifted_refl.
  - rewrite !He. reflexivity.
Qed.

Lemma shifts_bind {A B} b (m : M A) (k : A -> M B) :
  shifts b m -> (forall a, shifts b (k a)) -> shifts b (bind m k).
Proof.
  intros Hm Hk s1 s2 H. unfold bind. specialize (Hm s1 s2 H).
  destruct (m s1) as [a1 t1|e1], (m s2) as [a2 t2|e2]; try contradiction.
  - destruct Hm as (-> & Hc & added & L1 & L2).
    specialize (Hk a2 t1 t2 Hc).
    destruct (k a2 t1) as [b1 u1|x1], (k a2 t2) as [b2 u2|x2];
      try contradiction; [|exact Hk].
    destruct Hk as (-> & Hc' & added' & M1 & M2).
    split; [reflexivity|]. split; [exact Hc'|].
    exists (added ++ added')%list.
    rewrite M1, M2, L1, L2, map_app, !app_assoc. now split.
  - exact Hm.
Qed.

Lemma shifts_append_line b text :
  (0 <= b)%Z -> shifts b (append_line text).
Proof.
  intros Hb s1 s2 (Hd & Hlow & Hv & Hc). split; [reflexivity|]. split.
  - now split; [|split; [|split]].
  - exists [indent s1 ++ text]. split; [reflexivity|].
    cbn [append_line lines map]. unfold indent, indented.
    fold (indent_at (indent_level s2)). fold (indent_at (indent_level s1)).
    rewrite Hd, indent_at_succ by lia. now rewrite append_assoc.
Qed.

Lemma shifts_append_code b code :
  (0 <= b)%Z -> shifts b (append_code code).
Proof.
  intros Hb. unfold append_code. destruct (truthy code);
    [now apply shifts_append_line|apply shifts_stateless, stateless_ret].
Qed.

Lemma shifts_set_switch_var b v : shifts b (set_switch_var v).
Proof.
  intros s1 s2 (Hd & Hlow & Hv & Hc). split; [reflexivity|]. split.
  - now split; [|split; [|split]].
  - exists []. cbn. now rewrite !app_nil_r.
Qed.

Lemma shifts_set_case_seen b c : shifts b (set_case_seen c).
Proof.
  intros s1 s2 (Hd & Hlow & Hv & Hc). split; [reflexivity|]. split.
  - now split; [|split; [|split]].
  - exists []. cbn. now rewrite !app_nil_r.
Qed.

Lemma shifts_get_switch_var b : shifts b get_switch_var.
Proof.
  intros s1 s2 (Hd & Hlow & Hv & Hc). split; [exact Hv|]. split.
  - now split; [|split; [|split]].
  - exists []. cbn. now rewrite !app_nil_r.
Qed.

Lemma shifts_get_case_seen b : shifts b get_case_seen.
Proof.
  intros s1 s2 (Hd & Hlow & Hv & Hc). split; [exact Hc|]. split.
  - now split; [|split; [|split]].
  - exists []. cbn. now rewrite !app_nil_r.
Qed.

(** The bracket around a nested block: inside it the depth is at least
    one more than at entry. *)
Lemma shifts_block {A B} b (m : M A) (k : M B) :
  (forall b', (0 <= b')%Z -> shifts b' m) -> shifts b k ->
  (0 <= b)%Z ->
  shifts b (add_indent 1 ;; m ;; add_indent (-1) ;; k).
Proof.
  intros Hm Hk Hb s1 s2 (Hd & Hlow & Hv & Hc).
  unfold bind, add_indent.
  match goal with
  | |- shifted_run _ _ _ (match m ?u1 with _ => _ end)
         (match m ?u2 with _ => _ end) =>
      assert (Hu : one_deeper (indent_level s1 + 1) u1 u2)
        by (split; [cbn; lia|split; [cbn; lia|now split]]);
      pose proof (Hm (indent_level s1 + 1)%Z ltac:(lia) u1 u2 Hu) as R;
      destruct (m u1) as [a1 t1|e1], (m u2) as [a2 t2|e2];
      try contradiction; [|exact R]
  end.
  destruct R as (_ & (Td & Tlow & Tv & Tc) & added & L1 & L2).
  cbn [lines] in L1, L2.
  match goal with
  | |- shifted_run _ _ _ (k ?w1) (k ?w2) =>
      assert (Hw : one_deeper b w1 w2)
        by (split; [cbn; lia|split; [cbn; lia|now split]]);
      pose proof (Hk w1 w2 Hw) as R;
      destruct (k w1) as [b1 x1|e1], (k w2) as [b2 x2|e2];
      try contradiction; [|exact R]
  end.
  destruct R as (-> & Hx & added' & M1 & M2). cbn [lines] in M1, M2.
  split; [reflexivity|]. split; [exact Hx|].
  exists (added ++ added')%list.
  rewrite M1, M2, L1, L2, map_app, !app_assoc. now split.
Qed.

Section ShiftLoops.
Variable b : Z.
Hypothesis Hb : (0 <= b)%Z.

Lemma shifts_visit_each_ (l : list node) :
  (forall m, In m l -> shifts b (visit m)) ->
  shifts b (visit_each_ visit l).
Proof.
  induction l as [|n l IH]; cbn [visit_each_]; intros H;
    [apply shifts_stateless, stateless_ret|].
  apply shifts_bind; [apply H; now left|intro].
  apply IH. intros; apply H; now right.
Qed.

Lemma shifts_visit_stmts (l : list node) :
  (forall m, In m l -> shifts b (visit m)) ->
  shifts b (visit_stmts visit l).
Proof.
  induction l as [|n l IH]; cbn [visit_stmts]; intros H;
    [apply shifts_stateless, stateless_ret|].
  apply shifts_bind; [apply H; now left|intro].
  apply shifts_bind; [now apply shifts_append_code|intro].
  apply IH. intros; apply H; now right.
Qed.

Lemma shifts_visit_list (l : list node) :
  (forall m, In m l -> shifts b (visit m)) ->
  shifts b (visit_list visit l).
Proof.
  induction l as [|n l IH]; cbn [visit_list]; intros H;
    [apply shifts_stateless, stateless_ret|].
  apply shifts_bind; [apply H; now left|intro].
  apply shifts_bind; [|intro; apply shifts_stateless, stateless_ret].
  apply IH. intros; apply H; now right.
Qed.
End ShiftLoops.

Ltac shifts_step IH :=
  first
    [ match goal with H : In _ [] |- _ => destruct H end
    | match goal with
      | |- shifts _ (bind (add_indent 1) _) =>
          apply shifts_block; [intros ? ?| |assumption]
      | |- shifts _ (bind _ _) => apply shifts_bind; [|intro]
      | |- shifts _ (append_line _) => apply shifts_append_line; assumption
      | |- shifts _ (visit _) =>
          apply IH; [eauto using child; fail|assumption]
      end
    | apply shifts_set_switch_var
    | apply shifts_set_case_seen
    | apply shifts_get_switch_var
    | apply shifts_get_case_seen
    | apply shifts_visit_stmts; [assumption|intros]
    | apply shifts_visit_each_; intros
    | apply shifts_visit_list; intros
    | apply shifts_stateless;
      first [ apply stateless_ret | apply stateless_raise
            | apply stateless_join | apply stateless_get_func_args
            | apply stateless_type_args ]
    | match goal with
      | |- shifts _ (if ?c then _ else _) => destruct c
      | |- shifts _ (match ?x with _ => _ end) => destruct x
      end ].

Lemma visit_shifts (n : node) : forall b, (0 <= b)%Z -> shifts b (visit n).
Proof.
  induction n as [n IH] using node_child_ind. intros b Hb.
  destruct n; visit_unfold; unfold generic_visit; repeat shifts_step IH.
Qed.

(** X12: the lines of a construct do not depend on the depth at which it
    is visited, but for their indentation.  From a non-negative depth, the
    visit of a node one level deeper returns the same value and appends
    the same lines, each behind four more spaces, and ends one level
    deeper with the same switch context; it raises the same exception
    when the visit raises. *)
Theorem X12_deeper_visit_indents_lines
    (n : node) (s : CtoPythonTranspiler) :
  (0 <= indent_level s)%Z ->
  match visit n s with
  | Ok v s' =>
      exists added s'',
        lines s' = (lines s ++ added)%list /\
        visit n (deeper s) = Ok v s'' /\
        lines s'' = (lines s ++ map indented added)%list /\
        indent_level s'' = (indent_level s' + 1)%Z /\
        switch_var s'' = switch_var s' /\
        case_seen s'' = case_seen s'
  | Raise e => visit n (deeper s) = Raise e
  end.
Proof.
  intros H.
  assert (Hd : one_deeper 0 s (deeper s)) by (now split; [|split; [|split]]).
  pose proof (visit_shifts n 0%Z ltac:(lia) s (deeper s) Hd) as R.
  unfold shifted_run in R.
  destruct (visit n s) as [v s'|e], (visit n (deeper s)) as [v2 s2|e2];
    try contradiction.
  - destruct R as (-> & (Td & _ & Tv & Tc) & added & L1 & L2).
    exists added, s2. repeat split; auto.
  - now subst.
Qed.

Lemma X12_deeper_visit_indents_lines_witness :
  lines (final_state one_other_switch)
  = ["# switch(x) equivalent";
     "if x == 1:"; "    print(" ++ dq ++ "one" ++ dq ++ ")";
     "else:"; "    print(" ++ dq ++ "other" ++ dq ++ ")"] /\
  exists s'',
    visit one_other_switch (deeper init_transpiler) = Ok PNone s'' /\
    lines s''
    = ["    # switch(x) equivalent";
       "    if x == 1:"; "        print(" ++ dq ++ "one" ++ dq ++ ")";
       "    else:"; "        print(" ++ dq ++ "other" ++ dq ++ ")"].
Proof.
  split; [vm_compute; reflexivity|].
  pose proof (X12_deeper_visit_indents_lines one_other_switch
                init_transpiler ltac:(cbn; lia)) as H.
  destruct (visit one_other_switch init_transpiler) as [v s'|e] eqn:E;
    [|vm_compute in E; discriminate E].
  destruct H as (added & s'' & L & V & L' & _).
  vm_compute in E. injection E as <- <-.
  cbn [lines init_transpiler app] in L, L'. subst added.
  exists s''. split; [exact V|exact L'].
Defined.

(** ** The preprocessing pass on texts with LF only *)

Lemma splitlines_from_nil (cur s : string) :
  splitlines_from cur s = [] -> cur = "" /\ s = "".
Proof.
  revert cur. induction s as [|c rest IH]; intros cur H.
  - cbn in H. destruct cur; [now split|discriminate H].
  - cbn [splitlines_from] in H. destruct (is_linebreak c).
    + destruct (Ascii.eqb c "013"); [|discriminate H].
      destruct rest as [|c' rest']; [discriminate H|].
      destruct c' as [[] [] [] [] [] [] [] []]; discriminate H.
    + apply IH in H as [H _]. destruct cur; discriminate H.
Qed.

Lemma chomp_no_break (s : string) : no_break s = true -> chomp s = s.
Proof.
  induction s as [|c rest IH]; [reflexivity|].
  cbn [no_break]. intros H. apply andb_true_iff in H as [Hc Hr].
  cbn [chomp]. destruct rest as [|c' rest'].
  - destruct (Ascii.eqb_spec c "010") as [->|_]; [discriminate Hc|].
    reflexivity.
  - now rewrite (IH Hr).
Qed.

Lemma chomp_app (a b : string) : b <> "" -> chomp (a ++ b) = a ++ chomp b.
Proof.
  intros Hb. induction a as [|c a IH]; [reflexivity|].
  cbn [append chomp]. rewrite IH.
  destruct (a ++ b) eqn:E; [|reflexivity].
  destruct a; [now elim Hb|discriminate E].
Qed.

Lemma chomp_nl (a : string) : chomp (a ++ nl) = a.
Proof.
  induction a as [|c a IH]; [reflexivity|].
  cbn [append chomp]. rewrite IH.
  destruct (a ++ nl) eqn:E; [destruct a; discriminate E|reflexivity].
Qed.

Lemma concat_cons (sep x : string) (l : list string) :
  l <> [] -> String.concat sep (x :: l) = x ++ sep ++ String.concat sep l.
Proof. destruct l; [now intros H; elim H|reflexivity]. Qed.

Lemma join_splitlines_from (s cur : string) :
  lf_only s = true -> no_break cur = true ->
  String.concat nl (splitlines_from cur s) = chomp (cur ++ s).
Proof.
  revert cur. induction s as [|c rest IH]; intros cur Hs Hcur.
  - rewrite append_nil_r, (chomp_no_break _ Hcur).
    cbn. now destruct cur.
  - cbn [lf_only] in Hs. apply andb_true_iff in Hs as [Hc Hrest].
    cbn [splitlines_from]. destruct (is_linebreak c) eqn:Hbreak.
    + cbn [negb orb] in Hc. apply Ascii.eqb_eq in Hc. subst c.
      cbn [Ascii.eqb Bool.eqb].
      destruct (splitlines_from "" rest) as [|l ls] eqn:E.
      * apply splitlines_from_nil in E as [_ ->]. cbn [String.concat].
        symmetry. apply chomp_nl.
      * rewrite concat_cons by discriminate. rewrite <- E.
        rewrite (IH "" Hrest eq_refl). cbn [append].
        assert (Hne : rest <> "").
        { intros ->. discriminate E. }
        change (String "010" rest) with (nl ++ rest).
        rewrite (chomp_app cur (nl ++ rest)) by discriminate.
        f_equal. cbn [append chomp nl].
        destruct rest; [now elim Hne|reflexivity].
    + rewrite IH; [|exact Hrest|].
      * now rewrite append_assoc.
      * rewrite no_break_app, Hcur. cbn [no_break]. now rewrite Hbreak.
Qed.

Lemma filter_all {A} (f : A -> bool) (l : list A) :
  forallb f l = true -> filter f l = l.
Proof.
  induction l as [|x l IH]; cbn [forallb filter]; intros H; [reflexivity|].
  apply andb_true_iff in H as [Hx Hl]. now rewrite Hx, IH.
Qed.

(** X13: on a text whose only line boundary is LF and that holds no
    directive line, the preprocessing pass changes nothing but the end: it
    returns the text without its final LF, if it has one. *)
Theorem X13_plain_text_loses_final_newline_only (c_code : string) :
  lf_only c_code = true ->
  forallb kept (splitlines c_code) = true ->
  remove_preprocessor_lines c_code = chomp c_code.
Proof.
  intros Hlf Hkept. unfold remove_preprocessor_lines.
  change (fun line => negb (is_directive line)) with kept.
  rewrite (filter_all _ _ Hkept). unfold splitlines.
  now rewrite (join_splitlines_from c_code "" Hlf eq_refl).
Qed.

Lemma X13_plain_text_loses_final_newline_only_witness :
  remove_preprocessor_lines ("int x;" ++ nl ++ nl ++ "int y;" ++ nl)
  = chomp ("int x;" ++ nl ++ nl ++ "int y;" ++ nl).
Proof.
  apply (X13_plain_text_loses_final_newline_only
           ("int x;" ++ nl ++ nl ++ "int y;" ++ nl));
    vm_compute; reflexivity.
Defined.

Lemma no_break_lf_only (s : string) : no_break s = true -> lf_only s = true.
Proof.
  induction s as [|c rest IH]; [reflexivity|]. cbn [no_break lf_only].
  intros H. apply andb_true_iff in H as [Hc Hr]. now rewrite Hc, IH.
Qed.

Lemma lf_only_app (a b : string) :
  lf_only (a ++ b) = lf_only a && lf_only b.
Proof.
  induction a as [|c a IH]; [reflexivity|].
  cbn [append lf_only]. now rewrite IH, andb_assoc.
Qed.

Lemma lf_only_join (ls : list string) :
  Forall (fun l => no_break l = true) ls ->
  lf_only (String.concat nl ls) = true.
Proof.
  induction 1 as [|l ls Hl Hls IH]; [reflexivity|].
  destruct ls as [|l' ls'].
  - now apply no_break_lf_only.
  - change (String.concat nl (l :: l' :: ls'))
      with (l ++ nl ++ String.concat nl (l' :: ls')).
    rewrite !lf_only_app, IH, (no_break_lf_only _ Hl). reflexivity.
Qed.

Lemma drop_last_blank_kept (ls : list string) :
  forallb kept ls = true -> forallb kept (drop_last_blank ls) = true.
Proof.
  induction ls as [|l ls IH]; [reflexivity|]. intros H.
  cbn [forallb] in H. apply andb_true_iff in H as [Hl Hls].
  destruct ls as [|l' ls'].
  - cbn [drop_last_blank]. destruct l; [reflexivity|].
    cbn [forallb]. now rewrite Hl.
  - change (drop_last_blank (l :: l' :: ls'))
      with (l :: drop_last_blank (l' :: ls')).
    cbn [forallb]. now rewrite Hl, IH.
Qed.

Lemma forallb_filter {A} (f : A -> bool) (l : list A) :
  forallb f (filter f l) = true.
Proof.
  induction l as [|x l IH]; [reflexivity|]. cbn [filter].
  destruct (f x) eqn:E; [cbn [forallb]; now rewrite E|exact IH].
Qed.

(** X14: whatever the input, the line boundaries of the text the
    preprocessing pass returns are all LF and none of its lines is a
    directive; a second pass over it changes nothing but the end, where it
    drops one more LF if there is one. *)
Theorem X14_preprocessed_text_is_normal (c_code : string) :
  lf_only (remove_preprocessor_lines c_code) = true /\
  forallb kept (splitlines (remove_preprocessor_lines c_code)) = true /\
  remove_preprocessor_lines (remove_preprocessor_lines c_code)
  = chomp (remove_preprocessor_lines c_code).
Proof.
  assert (Hb : Forall (fun l => no_break l = true)
                 (filter kept (splitlines c_code)))
    by apply filter_no_break, splitlines_no_break.
  assert (Hlf : lf_only (remove_preprocessor_lines c_code) = true)
    by apply (lf_only_join _ Hb).
  assert (Hk : forallb kept (splitlines (remove_preprocessor_lines c_code))
               = true).
  { unfold remove_preprocessor_lines.
    change (fun line => negb (is_directive line)) with kept.
    rewrite (splitlines_join _ Hb).
    apply drop_last_blank_kept, forallb_filter. }
  split; [exact Hlf|]. split; [exact Hk|].
  unfold remove_preprocessor_lines at 1.
  change (fun line => negb (is_directive line)) with kept.
  rewrite (filter_all _ _ Hk). unfold splitlines.
  now rewrite (join_splitlines_from _ "" Hlf eq_refl).
Qed.

(** ** The transport wrapper *)

Lemma dict_get_absent (key : string) (members : list (string * json))
    (default : json) :
  dict_has key members = false -> dict_get key members default = default.
Proof.
  induction members as [|[k v] rest IH]; [reflexivity|].
  cbn [dict_has existsb fst dict_get]. intros H.
  apply orb_false_iff in H as [Hk Hrest]. rewrite Hk. now apply IH.
Qed.

(** X15: [transpile] gives a payload without the key [code] the response
    of the empty source, and a payload whose [code] is a string the
    translation of that string.  The default covers only the missing key:
    a [code] that is not a string (a null, a number, a list) and a payload
    that is not an object raise [AttributeError], whatever the parser
    does. *)
Theorem X15_transpile_payload
    (parse : string -> parsed) (members : list (string * json))
    (data : json) (c_code : string) :
  (dict_has "code" members = false ->
   transpile parse (JObject members) = convert_c_to_python parse "" /\
   transpile parse (JObject members)
   = transpile parse (JObject (("code", JString "") :: members))) /\
  transpile parse (JObject (("code", JString c_code) :: members))
  = convert_c_to_python parse c_code /\
  (is_string (dict_get "code" members (JString "")) = false ->
   transpile parse (JObject members) = Raises AttributeError) /\
  (is_object data = false ->
   transpile parse data = Raises AttributeError).
Proof.
  split; [|split; [|split]].
  - intros H. unfold transpile. now rewrite (dict_get_absent _ _ _ H).
  - reflexivity.
  - intros H. unfold transpile.
    destruct (dict_get "code" members (JString "")); try reflexivity.
    discriminate H.
  - intros H. destruct data; try reflexivity. discriminate H.
Qed.

Lemma X15_transpile_payload_witness :
  transpile (fun _ => Tree (FileAST [])) (JObject [("lang", JString "c")])
  = convert_c_to_python (fun _ => Tree (FileAST [])) "" /\
  transpile (fun _ => Tree (FileAST [])) (JObject [("code", JNull)])
  = Raises AttributeError /\
  transpile (fun _ => Tree (FileAST [])) (JArray []) = Raises AttributeError.
Proof.
  destruct (X15_transpile_payload (fun _ => Tree (FileAST []))
              [("lang", JString "c")] (JArray []) "")
    as (Habsent & _ & _ & Hdata).
  destruct (X15_transpile_payload (fun _ => Tree (FileAST []))
              [("code", JNull)] JNull "")
    as (_ & _ & Hnull & _).
  split; [exact (proj1 (Habsent eq_refl))|].
  split; [exact (Hnull eq_refl)|exact (Hdata eq_refl)].
Defined.

(** ** Code without switch statements *)

(** X16: on code without switch statement, label and function definition,
    whose for-loops have an assignment as initializer and a binary
    operation as condition, the generator is the function [own_lines]: the
    visit of such a node returns without an exception, appends the lines
    [own_lines] computes from the node and the depth alone, and changes
    nothing else of the state.  A chain of [else if] comes out nested, one
    level deeper for each link. *)
Theorem X16_plain_code_is_own_lines (n : node) (s : CtoPythonTranspiler) :
  plain n = true ->
  visit n s = Ok (value_of n) (emit (own_lines (indent_level s) n) s).
Proof. intros H. now apply visit_plain. Qed.

Lemma X16_plain_code_is_own_lines_witness :
  visit else_if_chain init_transpiler
  = Ok PNone
      (emit ["if a:"; "    f()";
             "else:"; "    if b:"; "        g()";
             "    else:"; "        h()"] init_transpiler).
Proof.
  exact (X16_plain_code_is_own_lines else_if_chain init_transpiler eq_refl).
Defined.

(** ** Files of several definitions *)

Lemma visit_each_guarded (fs : list node) (blocks : list (list string)) :
  Forall2 (fun f block => guarded f = true /\ block_of f = Some block)
    fs blocks ->
  forall s, indent_level s = 0%Z -> switch_var s = PNone ->
  exists s',
    visit_each_ visit fs s = Ok tt s' /\
    lines s' = (lines s ++ List.concat blocks)%list /\
    indent_level s' = 0%Z /\ switch_var s' = PNone.
Proof.
  induction 1 as [|f block fs blocks [Hg Hb] _ IH]; intros s Hd Hv.
  - exists s. cbn [List.concat]. now rewrite app_nil_r.
  - destruct (visit_guarded_later f block s Hg Hb Hd Hv)
      as (v & s1 & E & L & D & V).
    destruct (IH s1 D V) as (s2 & E2 & L2 & D2 & V2).
    exists s2. cbn [visit_each_ List.concat].
    rewrite (bind_ok _ _ _ _ _ E), E2, L2, L, app_assoc. auto.
Qed.

(** X17: the translation of a file is the concatenation of the
    translations of its top-level definitions.  When each definition is
    translated on its own without an exception and has no case label
    outside a switch body, the text [generate] returns for the file is the
    lines of the first definition, then those of the second, and so on,
    joined by LF: no definition changes the lines of another. *)
Theorem X17_file_is_concatenation_of_blocks
    (fs : list node) (blocks : list (list string)) :
  Forall2 (fun f block => guarded f = true /\ block_of f = Some block)
    fs blocks ->
  generate (FileAST fs) = Returns (String.concat nl (List.concat blocks)).
Proof.
  intros H.
  destruct (visit_each_guarded fs blocks H init_transpiler eq_refl eq_refl)
    as (s' & E & L & _ & _).
  unfold generate. visit_unfold. rewrite (bind_ok _ _ _ _ _ E).
  unfold ret. now rewrite L.
Qed.

Lemma X17_file_is_concatenation_of_blocks_witness :
  generate (FileAST [zero_def; switch_def; zero_def])
  = Returns
      (String.concat nl
         (List.concat
            [["def h():"; "    return 0"];
             ["def f():"; "    # switch(x) equivalent";
              "    if x == 1:"; "        a()"];
             ["def h():"; "    return 0"]])).
Proof.
  apply (X17_file_is_concatenation_of_blocks
           [zero_def; switch_def; zero_def]).
  repeat constructor; vm_compute; reflexivity.
Defined.
